(** * urdf-simplifier: a shallow embedding of main.go and its properties

    The program reads a URDF robot description, simplifies every link
    (processLink), keeps the actuated kinematic chain (filterToMainChain)
    and writes the document back.  Mesh references are resolved to files
    by resolvePackageURI.

    Layout of this development:
    - [GoStrings], [filepath]: executable models of the few functions of
      Go's [strings] and [path/filepath] packages that main.go calls
      (Unix flavour: separator '/', no volume names);
    - the URDF structs of main.go as records; a Go pointer field [*T] is
      an [option T], a slice [[]T] a [list T];
    - the operating system, the STL bounding-box package and
      [encoding/xml] as a record [World] of functions;
    - the three functions of main.go and [main] itself;
    - [Scenario]: the documents and worlds of the specification's test
      scenarios;
    - lemmas on the models, then the properties of the specification.

    Values are modelled as trees.  main.go only ever works on the result
    of [xml.Unmarshal], which allocates a fresh object for every pointer
    field it fills, so no two pointer fields of the Robot alias each other
    and in-place mutation through a pointer is the same as rebuilding the
    enclosing record. *)

From Stdlib Require Import ZArith Ascii.
From stdpp Require Import base option list strings gmap pretty.

(** ** Go's [strings] package *)

Module GoStrings.

(** [strings.HasPrefix(s, prefix)] *)
Fixpoint HasPrefix (s prefix : string) {struct prefix} : bool :=
  match prefix with
  | EmptyString => true
  | String a prefix' =>
      match s with
      | EmptyString => false
      | String b s' => if Ascii.eqb a b then HasPrefix s' prefix' else false
      end
  end.

(** [s[n:]] *)
Fixpoint skip (n : nat) (s : string) : string :=
  match n with
  | O => s
  | S n' => match s with
            | EmptyString => EmptyString
            | String _ s' => skip n' s'
            end
  end.

(** [strings.TrimPrefix(s, prefix)] *)
Definition TrimPrefix (s prefix : string) : string :=
  if HasPrefix s prefix then skip (String.length prefix) s else s.

(** [strings.HasSuffix(s, suffix)] *)
Definition HasSuffix (s suffix : string) : bool :=
  HasPrefix (String.rev s) (String.rev suffix).

(** [strings.Cut(s, sep)] for a one-byte separator: the text before and
    after the first occurrence of [sep], if there is one. *)
Fixpoint Cut (s : string) (sep : ascii) : option (string * string) :=
  match s with
  | EmptyString => None
  | String a s' =>
      if Ascii.eqb a sep then Some (EmptyString, s')
      else match Cut s' sep with
           | Some (before, after) => Some (String a before, after)
           | None => None
           end
  end.

(** [strings.SplitN(s, sep, n)] for a one-byte separator and [n >= 0]:
    at most [n] pieces, the last one holding the unsplit remainder. *)
Fixpoint SplitN (s : string) (sep : ascii) (n : nat) : list string :=
  match n with
  | O => []
  | S O => [s]
  | S n' =>
      match Cut s sep with
      | Some (before, after) => before :: SplitN after sep n'
      | None => [s]
      end
  end.

(** [strings.Split(s, sep)] for a one-byte separator. *)
Fixpoint Split (s : string) (sep : ascii) : list string :=
  match s with
  | EmptyString => [EmptyString]
  | String a s' =>
      if Ascii.eqb a sep then EmptyString :: Split s' sep
      else match Split s' sep with
           | [] => [String a EmptyString]
           | piece :: pieces => String a piece :: pieces
           end
  end.

(** [strings.Join(elems, sep)] *)
Fixpoint Join (elems : list string) (sep : string) : string :=
  match elems with
  | [] => EmptyString
  | [e] => e
  | e :: elems' => e +:+ sep +:+ Join elems' sep
  end.

(** The byte [c] occurs in [s]. *)
Fixpoint ContainsByte (s : string) (c : ascii) : bool :=
  match s with
  | EmptyString => false
  | String a s' => if Ascii.eqb a c then true else ContainsByte s' c
  end.

End GoStrings.

(** ** Go's [path/filepath] package (Unix) *)

Module filepath.

Definition Separator : ascii := "/"%char.

(** One step of [Clean]'s loop on the path element [elem]; [out] holds
    the elements written so far, last one first.  An empty element and
    [.] are skipped; [..] removes the last real element, is dropped at
    the root, and is kept in front of a path that is not rooted. *)
Definition cleanStep (rooted : bool) (out : list string) (elem : string)
  : list string :=
  if decide (elem = "") then out
  else if decide (elem = ".") then out
  else if decide (elem = "..") then
    match out with
    | [] => if rooted then [] else [".."]
    | last :: out' =>
        if decide (last = "..") then ".." :: out else out'
    end
  else elem :: out.

(** [filepath.Clean(path)] *)
Definition Clean (path : string) : string :=
  match path with
  | EmptyString => "."
  | String c _ =>
      let rooted := Ascii.eqb c Separator in
      let out := foldl (cleanStep rooted) [] (GoStrings.Split path Separator) in
      let body := GoStrings.Join (rev out) "/" in
      if rooted then String Separator body
      else if decide (body = "") then "." else body
  end.

(** [filepath.Join(a, b)]: empty elements are ignored, the rest is
    joined with the separator and cleaned; no element at all gives the
    empty string. *)
Definition Join (a b : string) : string :=
  if decide (a = "") then
    if decide (b = "") then "" else Clean b
  else Clean (a +:+ "/" +:+ b).

(** [filepath.IsAbs(path)] *)
Definition IsAbs (path : string) : bool := GoStrings.HasPrefix path "/".

(** The text of [s] (given reversed) once its trailing separators are
    removed. *)
Fixpoint dropSeparators (s : string) : string :=
  match s with
  | EmptyString => EmptyString
  | String a s' => if Ascii.eqb a Separator then dropSeparators s' else s
  end.

(** The bytes of [s] in front of the first separator. *)
Fixpoint untilSeparator (s : string) : string :=
  match s with
  | EmptyString => EmptyString
  | String a s' =>
      if Ascii.eqb a Separator then EmptyString
      else String a (untilSeparator s')
  end.

(** The bytes of [s] from the first separator on. *)
Fixpoint fromSeparator (s : string) : string :=
  match s with
  | EmptyString => EmptyString
  | String a s' => if Ascii.eqb a Separator then s else fromSeparator s'
  end.

(** [filepath.Base(path)]: the last element of the path. *)
Definition Base (path : string) : string :=
  if decide (path = "") then "."
  else
    let last := String.rev (untilSeparator (dropSeparators (String.rev path))) in
    if decide (last = "") then "/" else last.

(** [filepath.Dir(path)]: all but the last element, cleaned. *)
Definition Dir (path : string) : string :=
  Clean (String.rev (fromSeparator (String.rev path))).

End filepath.

(** ** The URDF structures of main.go

    [float64] is kept abstract: the program never computes with a float,
    it only moves the values of the bounding box into [fmt.Sprintf]. *)

(** [xml.Name] *)
Record Name := { Space : string; Local : string }.

Section Simplifier.

Context {float64 : Type}.

Record Mass := { Mass_XMLName : Name; Mass_Value : float64 }.

Record Origin := {
  Origin_XMLName : Name;
  RPY : string;
  XYZ : string
}.

Record Inertia := {
  Inertia_XMLName : Name;
  IXX : float64; IXY : float64; IXZ : float64;
  IYY : float64; IYZ : float64; IZZ : float64
}.

Record Inertial := {
  Inertial_XMLName : Name;
  Inertial_Mass : option Mass;
  Inertial_Origin : option Origin;
  Inertial_Inertia : option Inertia
}.

Record Mesh := { Mesh_XMLName : Name; Filename : string }.

Record Box := { Box_XMLName : Name; Size : string }.

Record Geometry := {
  Geometry_XMLName : Name;
  Geometry_Mesh : option Mesh;
  Geometry_Box : option Box
}.

Record Visual := {
  Visual_XMLName : Name;
  Visual_Origin : option Origin;
  Visual_Geometry : option Geometry
}.

Record Collision := {
  Collision_XMLName : Name;
  Collision_Origin : option Origin;
  Collision_Geometry : option Geometry
}.

Record Link := {
  Link_XMLName : Name;
  Link_Name : string;
  Link_Visual : list Visual;
  Link_Collision : list Collision;
  Link_Inertial : option Inertial;
  Link_Origin : option Origin
}.

Record Parent := { Parent_XMLName : Name; Parent_Link : string }.

Record Child := { Child_XMLName : Name; Child_Link : string }.

Record Axis := { Axis_XMLName : Name; Axis_XYZ : string }.

Record Limit := {
  Limit_XMLName : Name;
  Effort : float64; Lower : float64; Upper : float64; Velocity : float64
}.

Record Dynamics := {
  Dynamics_XMLName : Name;
  Damping : float64; Friction : float64
}.

Record Joint := {
  Joint_XMLName : Name;
  Joint_Name : string;
  Joint_Type : string;
  Joint_Parent : option Parent;
  Joint_Child : option Child;
  Joint_Origin : option Origin;
  Joint_Axis : option Axis;
  Joint_Limit : option Limit;
  Joint_Dynamics : option Dynamics
}.

Record Robot := {
  Robot_XMLName : Name;
  Robot_Name : string;
  Links : list Link;
  Joints : list Joint
}.

(** The zero value of [xml.Name] and [&Origin{}]. *)
Definition zeroName : Name := {| Space := ""; Local := "" |}.
Definition zeroOrigin : Origin :=
  {| Origin_XMLName := zeroName; RPY := ""; XYZ := "" |}.

(** ** The outside world *)

(** The result of the bounding-box package: [bbox.Dimensions()] and
    [bbox.Center]. *)
Record Point := { Point_X : float64; Point_Y : float64; Point_Z : float64 }.
Record BoundingBox := {
  Dimensions : float64 * float64 * float64;
  Center : Point
}.

(** What [os.Lstat] finds at a path, with everything below it.  A
    directory carries the outcome of reading it: [None] when reading
    fails, otherwise its names in the order [filepath.Walk] visits them
    (sorted), each with the outcome of [os.Lstat] on that entry ([None]
    when that fails). *)
#[local] Unset Elimination Schemes.
Inductive Node :=
| File : Node
| Dir : option (list (string * option Node)) -> Node.
#[local] Set Elimination Schemes.

Record World := {
  (** [os.Stat(path)] returned no error *)
  os_Stat : string -> bool;
  (** the tree [os.Lstat] and the directory reads find at a path *)
  tree : string -> option Node;
  (** [stl.CalculateBoundingBoxFromFile]; an error is its message *)
  CalculateBoundingBoxFromFile : string -> BoundingBox + string;
  (** [fmt]'s verbs [%f] and [%.5f] on a float64 *)
  fmt_f : float64 -> string;
  fmt_5f : float64 -> string;
  (** [os.ReadFile], [xml.Unmarshal] into a Robot, [xml.MarshalIndent]
      of a Robot and [os.WriteFile]; an error is its message *)
  os_ReadFile : string -> string + string;
  xml_Unmarshal : string -> Robot + string;
  xml_MarshalIndent : Robot -> string + string;
  os_WriteFile : string -> string -> option string
}.

(** ** Standard output: one entry per message main.go prints (the three
    usage lines are one entry) *)
Inductive Output :=
| OutUsage
| OutErrorReading (err : string)
| OutErrorParsing (err : string)
| OutErrorGenerating (err : string)
| OutErrorWriting (err : string)
| OutSuccess (inputPath outputPath : string)
| OutFiltered (links joints : nat)
| OutStlPath (stlPath : string)
| OutWarning (filename err : string)
| OutReplaced (base : string) (width height depth : float64)
| OutSetOrigin (x y z : float64)
| OutBlank.

Definition isWarning (o : Output) : bool :=
  match o with OutWarning _ _ => true | _ => false end.

Variable W : World.

Definition nl : string := String "010"%char "".

(** The text each print statement writes. *)
Definition render (o : Output) : string :=
  match o with
  | OutUsage =>
      "Usage: urdf-simplifier <input.urdf> <output.urdf>" +:+ nl +:+
      "  input.urdf  - Path to the input URDF file" +:+ nl +:+
      "  output.urdf - Path to write the simplified URDF file" +:+ nl
  | OutErrorReading err => "Error reading input file: " +:+ err +:+ nl
  | OutErrorParsing err => "Error parsing URDF: " +:+ err +:+ nl
  | OutErrorGenerating err => "Error generating output XML: " +:+ err +:+ nl
  | OutErrorWriting err => "Error writing output file: " +:+ err +:+ nl
  | OutSuccess i o =>
      "Successfully simplified URDF: " +:+ i +:+ " -> " +:+ o +:+ nl
  | OutFiltered links joints =>
      "Filtered to main kinematic chain: " +:+ pretty links +:+ " links, "
        +:+ pretty joints +:+ " joints" +:+ nl
  | OutStlPath p => "stlPath:  " +:+ p +:+ nl
  | OutWarning filename err =>
      "Warning: Could not calculate bounding box for " +:+ filename +:+ ": "
        +:+ err +:+ nl
  | OutReplaced base w h d =>
      "Replaced mesh " +:+ base +:+ " with box of width, height, depth = ("
        +:+ fmt_5f W w +:+ " x " +:+ fmt_5f W h +:+ " x " +:+ fmt_5f W d
        +:+ ")" +:+ nl
  | OutSetOrigin x y z =>
      "Set collision origin to center: (" +:+ fmt_5f W x +:+ ", "
        +:+ fmt_5f W y +:+ ", " +:+ fmt_5f W z +:+ ")" +:+ nl
  | OutBlank => " " +:+ nl
  end.

(** [fmt.Sprintf("%f %f %f", a, b, c)] *)
Definition Sprintf3 (a b c : float64) : string :=
  fmt_f W a +:+ " " +:+ fmt_f W b +:+ " " +:+ fmt_f W c.

(** ** [filepath.Walk]

    main.go's callback returns [nil] or [filepath.SkipAll] only, so these
    are the two results the model of [Walk] distinguishes. *)
Inductive WalkFuncResult := WalkNil | SkipAll.

(** [os.FileInfo], as far as main.go looks at it. *)
Record FileInfo := { IsDir : bool }.

Section Walk.

(** The callback, with the variables it captures as a state [S]:
    [fn st path info err], where [info] is [None] for Go's nil and
    [err] says whether the error passed is non-nil. *)
Context {S : Type}.
Variable fn : S -> string -> option FileInfo -> bool -> S * WalkFuncResult.

(** [filepath.walk(path, info, walkFn)] *)
Fixpoint walk (path : string) (n : Node) (st : S) : S * WalkFuncResult :=
  match n with
  | File => fn st path (Some {| IsDir := false |}) false
  | Dir None => fn st path (Some {| IsDir := true |}) true
  | Dir (Some names) =>
      let '(st1, err1) := fn st path (Some {| IsDir := true |}) false in
      match err1 with
      | SkipAll => (st1, SkipAll)
      | WalkNil =>
          (fix range (names : list (string * option Node)) (st : S) :=
             match names with
             | [] => (st, WalkNil)
             | (name, fileInfo) :: names' =>
                 let filename := filepath.Join path name in
                 let '(st', err) :=
                   match fileInfo with
                   | None => fn st filename None true
                   | Some n' => walk filename n' st
                   end in
                 match err with
                 | SkipAll => (st', SkipAll)
                 | WalkNil => range names' st'
                 end
             end) names st1
      end
  end.

(** [os.Lstat(name)]: the empty name is no file (ENOENT). *)
Definition os_Lstat (name : string) : option Node :=
  if decide (name = "") then None else tree W name.

(** [filepath.Walk(root, fn)]; the state of the callback afterwards. *)
Definition Walk (root : string) (st : S) : S :=
  match os_Lstat root with
  | None => fst (fn st root None true)
  | Some n => fst (walk root n st)
  end.

End Walk.

(** ** resolvePackageURI *)

(** The callback of the walk: [foundPath] is the captured variable. *)
Definition findSuffix (relativePath : string)
    (foundPath path : string) (info : option FileInfo) (err : bool)
  : string * WalkFuncResult :=
  if err then (foundPath, WalkNil)
  else
    match info with
    | Some info =>
        if negb (IsDir info) && GoStrings.HasSuffix path relativePath
        then (path, SkipAll)
        else (foundPath, WalkNil)
    | None => (foundPath, WalkNil)
    end.

Definition resolvePackageURI (uri baseDir : string) : string :=
  if GoStrings.HasPrefix uri "package://" then
    let relativePath := GoStrings.TrimPrefix uri "package://" in
    let parts := GoStrings.SplitN relativePath "/" 2 in
    let relativePath :=
      if decide (length parts = 2) then default "" (parts !! 1)
      else relativePath in
    let standardPath := filepath.Join baseDir relativePath in
    if os_Stat W standardPath then standardPath
    else
      let foundPath := Walk (findSuffix relativePath) baseDir "" in
      if decide (foundPath <> "") then foundPath else standardPath
  else if filepath.IsAbs uri then uri
  else filepath.Join baseDir uri.

(** ** processLink *)

(** [for i := range xs { body(&xs[i]) }]: the loop visits the indices in
    order, the body rewrites the element in place and prints. *)
Definition forRange {A : Type} (body : A -> A * list Output) (xs : list A)
  : list A * list Output :=
  foldl (fun '(xs, out) i =>
           match xs !! i with
           | Some x => let '(x', o) := body x in (<[i := x']> xs, out ++ o)
           | None => (xs, out)
           end)
        (xs, []) (seq 0 (length xs)).

(** The body of the loop over [link.Collision] (step 2 of processLink). *)
Definition processCollision (baseDir : string) (c : Collision)
  : Collision * list Output :=
  match Collision_Geometry c with
  | None => (c, [])
  | Some geometry =>
      match Geometry_Mesh geometry with
      | None => (c, [])
      | Some mesh =>
          let stlPath := resolvePackageURI (Filename mesh) baseDir in
          match CalculateBoundingBoxFromFile W stlPath with
          | inr err =>
              (c, [OutStlPath stlPath; OutWarning (Filename mesh) err])
          | inl bbox =>
              let '(width, height, depth) := Dimensions bbox in
              let center := Center bbox in
              let geometry' :=
                {| Geometry_XMLName := Geometry_XMLName geometry;
                   Geometry_Mesh := None;
                   Geometry_Box :=
                     Some {| Box_XMLName := zeroName;
                             Size := Sprintf3 width height depth |} |} in
              let origin := default zeroOrigin (Collision_Origin c) in
              let origin' :=
                {| Origin_XMLName := Origin_XMLName origin;
                   RPY := RPY origin;
                   XYZ := Sprintf3 (Point_X center) (Point_Y center)
                                   (Point_Z center) |} in
              ({| Collision_XMLName := Collision_XMLName c;
                  Collision_Origin := Some origin';
                  Collision_Geometry := Some geometry' |},
               [OutStlPath stlPath;
                OutReplaced (filepath.Base stlPath) width height depth;
                OutSetOrigin (Point_X center) (Point_Y center) (Point_Z center);
                OutBlank])
          end
      end
  end.

Definition processLink (baseDir : string) (link : Link)
  : Link * list Output :=
  let origin :=
    match Link_Inertial link with
    | Some inertial =>
        match Inertial_Origin inertial with
        | Some o => Some o
        | None => Link_Origin link
        end
    | None => Link_Origin link
    end in
  let '(collision, out) :=
    forRange (processCollision baseDir) (Link_Collision link) in
  ({| Link_XMLName := Link_XMLName link;
      Link_Name := Link_Name link;
      Link_Visual := [];
      Link_Collision := collision;
      Link_Inertial := None;
      Link_Origin := origin |}, out).

(** ** filterToMainChain *)

Definition isMainJoint (joint : Joint) : bool :=
  bool_decide (Joint_Type joint = "revolute")
  || bool_decide (Joint_Type joint = "prismatic").

(** The loop that fills [linkSet]. *)
Definition addJointLinks (linkSet : gmap string bool) (joint : Joint)
  : gmap string bool :=
  let linkSet :=
    match Joint_Parent joint with
    | Some parent => <[Parent_Link parent := true]> linkSet
    | None => linkSet
    end in
  match Joint_Child joint with
  | Some child => <[Child_Link child := true]> linkSet
  | None => linkSet
  end.

(** [linkSet[name]]: a missing key reads as [false]. *)
Definition index (linkSet : gmap string bool) (name : string) : bool :=
  default false (linkSet !! name).

Definition filterToMainChain (robot : Robot) : Robot * list Output :=
  let mainJoints :=
    foldl (fun mainJoints joint =>
             if isMainJoint joint then mainJoints ++ [joint] else mainJoints)
          [] (Joints robot) in
  let linkSet := foldl addJointLinks ∅ mainJoints in
  let filteredLinks :=
    foldl (fun filteredLinks link =>
             if index linkSet (Link_Name link)
             then filteredLinks ++ [link] else filteredLinks)
          [] (Links robot) in
  ({| Robot_XMLName := Robot_XMLName robot;
      Robot_Name := Robot_Name robot;
      Links := filteredLinks;
      Joints := mainJoints |},
   [OutFiltered (length filteredLinks) (length mainJoints)]).

(** ** main *)

(** What a run leaves behind: the exit status, what was printed, and the
    file written (path and content), if any. *)
Record Exit := {
  exitCode : nat;
  stdout : list Output;
  written : option (string * string)
}.

Definition quote : string := String "034"%char "".

(** [xml.Header] *)
Definition xml_Header : string :=
  "<?xml version=" +:+ quote +:+ "1.0" +:+ quote +:+ " encoding=" +:+ quote
    +:+ "UTF-8" +:+ quote +:+ "?>" +:+ nl.

(** Lines 155 to 161 of main: every link is processed, then the robot
    is filtered. *)
Definition simplify (baseDir : string) (robot : Robot)
  : Robot * list Output :=
  let '(links, out1) := forRange (processLink baseDir) (Links robot) in
  let robot :=
    {| Robot_XMLName := Robot_XMLName robot;
       Robot_Name := Robot_Name robot;
       Links := links;
       Joints := Joints robot |} in
  let '(robot, out2) := filterToMainChain robot in
  (robot, out1 ++ out2).

Definition main (Args : list string) : Exit :=
  if decide (length Args < 3) then
    {| exitCode := 1; stdout := [OutUsage]; written := None |}
  else
    let inputPath := default "" (Args !! 1) in
    let outputPath := default "" (Args !! 2) in
    match os_ReadFile W inputPath with
    | inr err =>
        {| exitCode := 1; stdout := [OutErrorReading err]; written := None |}
    | inl data =>
        match xml_Unmarshal W data with
        | inr err =>
            {| exitCode := 1; stdout := [OutErrorParsing err];
               written := None |}
        | inl robot =>
            let baseDir := filepath.Dir inputPath in
            let '(robot, out) := simplify baseDir robot in
            match xml_MarshalIndent W robot with
            | inr err =>
                {| exitCode := 1; stdout := out ++ [OutErrorGenerating err];
                   written := None |}
            | inl output =>
                let finalOutput := xml_Header +:+ output +:+ nl in
                match os_WriteFile W outputPath finalOutput with
                | Some err =>
                    {| exitCode := 1; stdout := out ++ [OutErrorWriting err];
                       written := None |}
                | None =>
                    {| exitCode := 0;
                       stdout := out ++ [OutSuccess inputPath outputPath];
                       written := Some (outputPath, finalOutput) |}
                end
            end
        end
    end.

(** ** The calls [filepath.Walk] makes

    The arguments of every call of the callback, in order, when no call
    stops the walk.  This list is the traversal order the properties of
    resolvePackageURI are stated with. *)
Record Visit := {
  vPath : string;
  vInfo : option FileInfo;
  vErr : bool
}.

Fixpoint visits (path : string) (n : Node) : list Visit :=
  match n with
  | File =>
      [{| vPath := path; vInfo := Some {| IsDir := false |}; vErr := false |}]
  | Dir None =>
      [{| vPath := path; vInfo := Some {| IsDir := true |}; vErr := true |}]
  | Dir (Some names) =>
      {| vPath := path; vInfo := Some {| IsDir := true |}; vErr := false |}
      :: (fix range (names : list (string * option Node)) : list Visit :=
            match names with
            | [] => []
            | (name, fileInfo) :: names' =>
                match fileInfo with
                | None =>
                    [{| vPath := filepath.Join path name; vInfo := None;
                        vErr := true |}]
                | Some n' => visits (filepath.Join path name) n'
                end ++ range names'
            end) names
  end.

(** Calling a callback on a list of visits until one returns SkipAll. *)
Fixpoint callUntilSkipAll {S : Type}
    (fn : S -> string -> option FileInfo -> bool -> S * WalkFuncResult)
    (vs : list Visit) (st : S) : S * WalkFuncResult :=
  match vs with
  | [] => (st, WalkNil)
  | v :: vs' =>
      let '(st', r) := fn st (vPath v) (vInfo v) (vErr v) in
      match r with
      | SkipAll => (st', SkipAll)
      | WalkNil => callUntilSkipAll fn vs' st'
      end
  end.

Definition visitsFrom (root : string) : list Visit :=
  match os_Lstat root with
  | None => [{| vPath := root; vInfo := None; vErr := true |}]
  | Some n => visits root n
  end.

(** A visit of something that is not a directory, without error, whose
    path ends with [relativePath]. *)
Definition isFileWithSuffix (relativePath : string) (v : Visit) : bool :=
  negb (vErr v)
  && match vInfo v with
     | Some info => negb (IsDir info)
     | None => false
     end
  && GoStrings.HasSuffix (vPath v) relativePath.

(** A collision whose mesh the bounding-box package cannot measure. *)
Definition meshFails (baseDir : string) (c : Collision) : bool :=
  match Collision_Geometry c with
  | Some geometry =>
      match Geometry_Mesh geometry with
      | Some mesh =>
          match CalculateBoundingBoxFromFile W
                  (resolvePackageURI (Filename mesh) baseDir) with
          | inr _ => true
          | inl _ => false
          end
      | None => false
      end
  | None => false
  end.

(** The link names a joint refers to. *)
Definition jointLinks (joint : Joint) : list string :=
  match Joint_Parent joint with
  | Some parent => [Parent_Link parent]
  | None => []
  end ++
  match Joint_Child joint with
  | Some child => [Child_Link child]
  | None => []
  end.

(** Some joint of [joints] has [name] as its parent or child link. *)
Definition referenced (joints : list Joint) (name : string) : Prop :=
  Exists (fun joint => name ∈ jointLinks joint) joints.

#[global] Instance referenced_dec joints name : Decision (referenced joints name).
Proof. unfold referenced. apply _. Defined.

(** The policy of the Resource Locator for a package-relative URI, in
    the words of the specification (4.2, steps 2 to 4), once the scheme
    and the package name are stripped and [rest] is left: the candidate
    if something exists there, else the first file in traversal order
    whose path ends with [rest], else the candidate anyway. *)
Definition resolve_spec (baseDir rest : string) : string :=
  let candidate := filepath.Join baseDir rest in
  if os_Stat W candidate then candidate
  else
    match List.find (isFileWithSuffix rest) (visitsFrom baseDir) with
    | Some v => vPath v
    | None => candidate
    end.

(** The kinds of message, and the messages that end a failed run. *)
Definition isStlPath (o : Output) : bool :=
  match o with OutStlPath _ => true | _ => false end.

Definition isReplaced (o : Output) : bool :=
  match o with OutReplaced _ _ _ _ => true | _ => false end.


(** The path a message reports as resolved is not the empty string. *)
Definition stlPathGiven (o : Output) : Prop :=
  match o with OutStlPath stlPath => stlPath <> "" | _ => True end.

(** A collision whose geometry refers to a mesh. *)
Definition hasMesh (c : Collision) : bool :=
  match Collision_Geometry c with
  | Some geometry =>
      match Geometry_Mesh geometry with Some _ => true | None => false end
  | None => false
  end.

End Simplifier.

(** ** Concrete worlds and documents

    The documents of the specification's test scenarios.  Whole numbers
    stand for the float64 values; they print with six, or five, zero
    decimals, as [%f] and [%.5f] print them. *)

Module Scenario.

Definition name (local : string) : Name := {| Space := ""; Local := local |}.

Definition joint (jname type parent child : string) : @Joint Z :=
  {| Joint_XMLName := name "joint";
     Joint_Name := jname;
     Joint_Type := type;
     Joint_Parent := Some {| Parent_XMLName := name "parent"; Parent_Link := parent |};
     Joint_Child := Some {| Child_XMLName := name "child"; Child_Link := child |};
     Joint_Origin := None; Joint_Axis := None; Joint_Limit := None;
     Joint_Dynamics := None |}.

Definition link (lname : string) (collision : list Collision)
    (inertial : option (@Inertial Z)) : @Link Z :=
  {| Link_XMLName := name "link";
     Link_Name := lname;
     Link_Visual := [];
     Link_Collision := collision;
     Link_Inertial := inertial;
     Link_Origin := None |}.

Definition robot (links : list (@Link Z)) (joints : list (@Joint Z))
  : @Robot Z :=
  {| Robot_XMLName := name "robot"; Robot_Name := "arm";
     Links := links; Joints := joints |}.

Definition meshCollision (filename : string) : Collision :=
  {| Collision_XMLName := name "collision";
     Collision_Origin := None;
     Collision_Geometry :=
       Some {| Geometry_XMLName := name "geometry";
               Geometry_Mesh :=
                 Some {| Mesh_XMLName := name "mesh"; Filename := filename |};
               Geometry_Box := None |} |}.


(** The chain of the specification: A -fixed- B -revolute- C -prismatic-
    D -fixed- E. *)
Definition chain : @Robot Z :=
  robot [link "A" [] None; link "B" [] None; link "C" [] None;
         link "D" [] None; link "E" [] None]
        [joint "AB" "fixed" "A" "B"; joint "BC" "revolute" "B" "C";
         joint "CD" "prismatic" "C" "D"; joint "DE" "fixed" "D" "E"].


(** A link with an inertial origin and no origin of its own. *)
Definition inertialOrigin : Origin :=
  {| Origin_XMLName := name "origin"; RPY := "0 0 0"; XYZ := "1 2 3" |}.

Definition heavyLink : @Link Z :=
  link "arm" []
    (Some {| Inertial_XMLName := name "inertial";
             Inertial_Mass := Some {| Mass_XMLName := name "mass"; Mass_Value := 4%Z |};
             Inertial_Origin := Some inertialOrigin;
             Inertial_Inertia := None |}).

(** The directory /x holds nested/meshes/arm.stl and nothing else. *)
Definition xTree : Node :=
  Dir (Some [("nested",
    Some (Dir (Some [("meshes",
      Some (Dir (Some [("arm.stl", Some File)])))])))]).

(** The directory /x holds robot.urdf and meshes/good.stl. *)
Definition goodTree : Node :=
  Dir (Some [("meshes", Some (Dir (Some [("good.stl", Some File)])));
             ("robot.urdf", Some File)]).

Definition unitBox : @BoundingBox Z :=
  {| Dimensions := (2, 4, 6)%Z; Center := {| Point_X := 1; Point_Y := 2; Point_Z := 3 |}%Z |}.

(** A document with two collision meshes on a link of the chain. *)
Definition twoMeshes : @Robot Z :=
  robot [link "base" [] None;
         link "arm" [meshCollision "package://arm_description/meshes/missing.stl";
                     meshCollision "package://arm_description/meshes/good.stl"]
              None]
        [joint "shoulder" "revolute" "base" "arm"].

(** A world over the tree [t] at /x where the paths of [existing]
    exist, [measurable] are the files the bounding-box package reads,
    and /x/robot.urdf holds a document that parses to [twoMeshes]. *)
Definition world (t : Node) (existing measurable : list string) : @World Z :=
  {| os_Stat := fun path => bool_decide (path ∈ existing);
     tree := fun path => if decide (path = "/x") then Some t else None;
     CalculateBoundingBoxFromFile := fun path =>
       if decide (path ∈ measurable) then inl unitBox
       else inr ("open " +:+ path +:+ ": no such file or directory");
     fmt_f := fun x => pretty x +:+ ".000000";
     fmt_5f := fun x => pretty x +:+ ".00000";
     os_ReadFile := fun path =>
       if decide (path = "/x/robot.urdf") then inl "<robot name=arm>"
       else inr ("open " +:+ path +:+ ": no such file or directory");
     xml_Unmarshal := fun data =>
       if decide (data = "<robot name=arm>") then inl twoMeshes
       else inr "EOF";
     xml_MarshalIndent := fun _ => inl "<robot name=arm></robot>";
     os_WriteFile := fun _ _ => None |}.

Definition xWorld : @World Z :=
  world xTree ["/x"; "/x/nested"; "/x/nested/meshes";
               "/x/nested/meshes/arm.stl"]
        ["/x/nested/meshes/arm.stl"].

Definition goodWorld : @World Z :=
  world goodTree ["/x"; "/x/meshes"; "/x/meshes/good.stl"; "/x/robot.urdf"]
        ["/x/meshes/good.stl"].

(** The same directory once meshes/missing.stl has been put back. *)
Definition fullTree : Node :=
  Dir (Some [("meshes", Some (Dir (Some [("good.stl", Some File);
                                         ("missing.stl", Some File)])));
             ("robot.urdf", Some File)]).

Definition fullWorld : @World Z :=
  world fullTree ["/x"; "/x/meshes"; "/x/meshes/good.stl";
                  "/x/meshes/missing.stl"; "/x/robot.urdf"]
        ["/x/meshes/good.stl"; "/x/meshes/missing.stl"].


(** A robot without any actuated joint. *)
Definition welded : @Robot Z :=
  robot [link "world" [] None; link "base" [] None; link "wheel" [] None]
        [joint "mount" "fixed" "world" "base";
         joint "axle" "continuous" "base" "wheel"].

(** A robot that is its own main chain. *)
Definition actuated : @Robot Z :=
  robot [link "B" [] None; link "C" [] None; link "D" [] None]
        [joint "BC" "revolute" "B" "C"; joint "CD" "prismatic" "C" "D"].

(** A link with an origin of its own and an inertial block without one. *)
Definition ownOrigin : Origin :=
  {| Origin_XMLName := name "origin"; RPY := ""; XYZ := "0 0 1" |}.

Definition lightLink : @Link Z :=
  {| Link_XMLName := name "link";
     Link_Name := "arm";
     Link_Visual := [];
     Link_Collision := [];
     Link_Inertial :=
       Some {| Inertial_XMLName := name "inertial";
               Inertial_Mass := Some {| Mass_XMLName := name "mass"; Mass_Value := 4%Z |};
               Inertial_Origin := None;
               Inertial_Inertia := None |};
     Link_Origin := Some ownOrigin |}.

End Scenario.

(** * Properties *)

(** ** The string functions *)

Section GoStringsFacts.
Import GoStrings.

Lemma sapp_nil (s : string) : "" +:+ s = s.
Proof. reflexivity. Qed.

Lemma sapp_cons (a : ascii) (s t : string) :
  String a s +:+ t = String a (s +:+ t).
Proof. reflexivity. Qed.

Lemma sapp_nil_r (s : string) : s +:+ "" = s.
Proof. induction s as [|a s IH]; [done|]. by rewrite sapp_cons, IH. Qed.

Lemma sapp_assoc (s t u : string) : (s +:+ t) +:+ u = s +:+ t +:+ u.
Proof. induction s as [|a s IH]; [done|]. by rewrite !sapp_cons, IH. Qed.

(** [String.append] does not unfold under [simpl]: push it inwards by
    rewriting. *)
Ltac sapp := rewrite ?sapp_cons, ?sapp_nil; simpl.

Lemma HasPrefix_app (prefix s : string) : HasPrefix (prefix +:+ s) prefix = true.
Proof.
  induction prefix as [|a prefix IH]; sapp; [done|].
  by rewrite Ascii.eqb_refl.
Qed.

Lemma HasPrefix_split (s prefix : string) :
  HasPrefix s prefix = true -> exists t, s = prefix +:+ t.
Proof.
  revert s. induction prefix as [|a prefix IH]; intros s; simpl.
  - intros _. by exists s.
  - destruct s as [|b s]; [done|].
    destruct (Ascii.eqb a b) eqn:E; [|done].
    apply Ascii.eqb_eq in E as ->. intros [t ->]%IH. by exists t.
Qed.

Lemma skip_app (prefix s : string) : skip (String.length prefix) (prefix +:+ s) = s.
Proof. induction prefix; sapp; auto. Qed.

Lemma TrimPrefix_app (prefix s : string) : TrimPrefix (prefix +:+ s) prefix = s.
Proof. unfold TrimPrefix. by rewrite HasPrefix_app, skip_app. Qed.

Lemma Cut_first (before after : string) (sep : ascii) :
  ContainsByte before sep = false ->
  Cut (before +:+ String sep after) sep = Some (before, after).
Proof.
  induction before as [|a before IH]; sapp.
  - intros _. by rewrite Ascii.eqb_refl.
  - destruct (Ascii.eqb a sep); [done|]. intros H. by rewrite (IH H).
Qed.

Lemma Cut_none (s : string) (sep : ascii) :
  ContainsByte s sep = false -> Cut s sep = None.
Proof.
  induction s as [|a s IH]; simpl; [done|].
  destruct (Ascii.eqb a sep); [done|]. intros H. by rewrite (IH H).
Qed.

Lemma SplitN2_first (before after : string) (sep : ascii) :
  ContainsByte before sep = false ->
  SplitN (before +:+ String sep after) sep 2 = [before; after].
Proof. intros H. simpl. by rewrite (Cut_first _ _ _ H). Qed.

Lemma SplitN2_none (s : string) (sep : ascii) :
  ContainsByte s sep = false -> SplitN s sep 2 = [s].
Proof. intros H. simpl. by rewrite (Cut_none _ _ H). Qed.

Lemma rev_app_app (s1 s2 : string) :
  String.rev_app s1 s2 = String.rev s1 +:+ s2.
Proof.
  unfold String.rev. revert s2.
  induction s1 as [|a s1 IH]; intros s2; simpl; [done|].
  rewrite (IH (String a s2)), (IH (String a "")).
  by rewrite sapp_assoc.
Qed.

Lemma rev_append (s1 s2 : string) :
  String.rev (s1 +:+ s2) = String.rev s2 +:+ String.rev s1.
Proof.
  induction s1 as [|a s1 IH]; sapp.
  - by rewrite sapp_nil_r.
  - unfold String.rev at 1 3. simpl. rewrite !rev_app_app, IH.
    by rewrite sapp_assoc.
Qed.

Lemma rev_involutive (s : string) : String.rev (String.rev s) = s.
Proof.
  induction s as [|a s IH]; [done|].
  change (String a s) with (String a "" +:+ s) at 1.
  by rewrite rev_append, rev_append, IH.
Qed.

(** [HasSuffix s suffix] holds exactly when [s] ends with [suffix]. *)
Lemma HasSuffix_spec (s suffix : string) :
  HasSuffix s suffix = true <-> exists p, s = p +:+ suffix.
Proof.
  unfold HasSuffix. split.
  - intros [t Ht]%HasPrefix_split. exists (String.rev t).
    rewrite <- (rev_involutive s), Ht, rev_append.
    by rewrite rev_involutive.
  - intros [p ->]. rewrite rev_append. apply HasPrefix_app.
Qed.

Lemma HasSuffix_nonempty (s suffix : string) :
  HasSuffix s suffix = true -> suffix <> "" -> s <> "".
Proof.
  intros [p ->]%HasSuffix_spec Hne. destruct p, suffix; done.
Qed.

End GoStringsFacts.

(** ** The path functions *)

Lemma Clean_nonempty (path : string) : filepath.Clean path <> "".
Proof.
  unfold filepath.Clean. destruct path as [|c path]; [done|].
  destruct (Ascii.eqb c filepath.Separator); [done|].
  by case_decide.
Qed.

Lemma Join_nonempty (a b : string) : a <> "" -> filepath.Join a b <> "".
Proof.
  intros Ha. unfold filepath.Join. rewrite decide_False by done.
  apply Clean_nonempty.
Qed.

(** ** Walking the file tree *)

Section WalkFacts.

(** Induction on file trees, through the entries of a directory. *)
Lemma Node_induction (P : Node -> Prop) :
  P File -> P (Dir None) ->
  (forall names,
     Forall (fun e => from_option P True e.2) names -> P (Dir (Some names))) ->
  forall n, P n.
Proof.
  intros HFile HUnreadable HDir. fix IH 1.
  intros [|[names|]]; [exact HFile| |exact HUnreadable].
  apply HDir.
  induction names as [|[name [n'|]] names IHnames]; constructor; simpl; auto.
Qed.

Context {S : Type}.
Variable fn : S -> string -> option FileInfo -> bool -> S * WalkFuncResult.

Lemma callUntilSkipAll_app (vs1 vs2 : list Visit) (st : S) :
  callUntilSkipAll fn (vs1 ++ vs2) st =
    let '(st', r) := callUntilSkipAll fn vs1 st in
    match r with
    | SkipAll => (st', SkipAll)
    | WalkNil => callUntilSkipAll fn vs2 st'
    end.
Proof.
  revert st. induction vs1 as [|v vs1 IH]; intros st; simpl; [done|].
  destruct (fn st (vPath v) (vInfo v) (vErr v)) as [st' []]; [|done].
  apply IH.
Qed.

Lemma callUntilSkipAll_single (v : Visit) (st : S) :
  callUntilSkipAll fn [v] st = fn st (vPath v) (vInfo v) (vErr v).
Proof. simpl. by destruct (fn _ _ _ _) as [? []]. Qed.

(** [walk] calls the callback on the visits of the tree, in order, and
    stops at the first SkipAll. *)
Lemma walk_visits (n : Node) : forall path st,
  walk fn path n st = callUntilSkipAll fn (visits path n) st.
Proof.
  induction n as [| |names IH] using Node_induction; intros path st.
  - symmetry. apply (callUntilSkipAll_single (Build_Visit _ _ _)).
  - symmetry. apply (callUntilSkipAll_single (Build_Visit _ _ _)).
  - simpl. destruct (fn st path _ false) as [st1 []]; [|done].
    clear st. revert st1.
    induction IH as [|[name fileInfo] names Hn _ IHnames]; intros st;
      [done|].
    rewrite callUntilSkipAll_app.
    destruct fileInfo as [n'|]; simpl in Hn |- *.
    + rewrite <- Hn. destruct (walk fn _ n' st) as [st' []]; [|done].
      apply IHnames.
    + destruct (fn st _ None true) as [st' []]; [|done].
      apply IHnames.
Qed.

End WalkFacts.

(** ** resolvePackageURI *)

Section ResolveFacts.

Context {float64 : Type}.
Variable W : @World float64.

(** The callback keeps the first file with the suffix and stops there. *)
Lemma findSuffix_first (relativePath : string) (vs : list Visit)
    (foundPath : string) :
  callUntilSkipAll (findSuffix relativePath) vs foundPath =
    match List.find (isFileWithSuffix relativePath) vs with
    | Some v => (vPath v, SkipAll)
    | None => (foundPath, WalkNil)
    end.
Proof.
  induction vs as [|[path info err] vs IH]; [done|].
  simpl. unfold findSuffix at 1, isFileWithSuffix at 1. simpl.
  destruct err; simpl; [apply IH|].
  destruct info as [[isDir]|]; simpl; [|apply IH].
  destruct isDir; simpl; [apply IH|].
  destruct (GoStrings.HasSuffix path relativePath); [done|apply IH].
Qed.

Lemma Walk_findSuffix (relativePath root : string) :
  Walk W (findSuffix relativePath) root "" =
    match List.find (isFileWithSuffix relativePath) (visitsFrom W root) with
    | Some v => vPath v
    | None => ""
    end.
Proof.
  unfold Walk, visitsFrom. destruct (os_Lstat W root) as [n|].
  - rewrite walk_visits, findSuffix_first. by destruct (List.find _ _).
  - done.
Qed.

(** Every path the walk reports without an error is a non-empty name. *)
Lemma visits_nonempty (n : Node) : forall path v,
  path <> "" -> v ∈ visits path n -> vPath v <> "".
Proof.
  induction n as [| |names IH] using Node_induction; intros path v Hpath.
  - by intros ->%list_elem_of_singleton.
  - by intros ->%list_elem_of_singleton.
  - simpl. intros [->|Hin]%elem_of_cons; [done|]. revert Hin.
    induction IH as [|[name fileInfo] names Hn _ IHnames]; simpl.
    + by intros ?%elem_of_nil.
    + intros [Hin|Hin]%elem_of_app; [|by apply IHnames].
      assert (filepath.Join path name <> "") by by apply Join_nonempty.
      destruct fileInfo as [n'|]; simpl in Hn.
      * by apply (Hn (filepath.Join path name)).
      * by apply list_elem_of_singleton in Hin as ->.
Qed.

Lemma visitsFrom_nonempty (root : string) (v : Visit) :
  v ∈ visitsFrom W root -> vErr v = false -> vPath v <> "".
Proof.
  unfold visitsFrom, os_Lstat. case_decide as Hroot.
  - by intros ->%list_elem_of_singleton.
  - destruct (tree W root) as [n|].
    + intros Hin _. by apply (visits_nonempty n root).
    + by intros ->%list_elem_of_singleton.
Qed.

Lemma find_isFileWithSuffix_nonempty (rest root : string) (v : Visit) :
  List.find (isFileWithSuffix rest) (visitsFrom W root) = Some v ->
  vPath v <> "".
Proof.
  intros [Hin Hv]%List.find_some.
  apply (visitsFrom_nonempty root); [by apply list_elem_of_In|].
  unfold isFileWithSuffix in Hv. by destruct (vErr v).
Qed.

(** What resolvePackageURI does once [relativePath] is settled. *)
Lemma resolve_package (uri baseDir rest : string) :
  GoStrings.HasPrefix uri "package://" = true ->
  (let relativePath := GoStrings.TrimPrefix uri "package://" in
   let parts := GoStrings.SplitN relativePath "/" 2 in
   if decide (length parts = 2) then default "" (parts !! 1)
   else relativePath) = rest ->
  resolvePackageURI W uri baseDir = resolve_spec W baseDir rest.
Proof.
  intros Hprefix Hrest. unfold resolvePackageURI, resolve_spec.
  rewrite Hprefix. cbv zeta in Hrest. rewrite Hrest.
  destruct (os_Stat W _); [done|].
  rewrite Walk_findSuffix.
  destruct (List.find _ _) as [v|] eqn:Hfind; [|done].
  apply find_isFileWithSuffix_nonempty in Hfind.
  by rewrite decide_True.
Qed.

End ResolveFacts.

(** ** The loops *)

Section LoopFacts.

Context {float64 : Type}.
Abbreviation Output := (@Output float64).

(** The in-place loop over the indices rewrites every element on its
    own and prints in order. *)
Lemma forRange_from {A : Type} (body : A -> A * list Output)
    (todo done : list A) (out : list Output) :
  foldl (fun '(xs, out) i =>
           match xs !! i with
           | Some x => let '(x', o) := body x in (<[i := x']> xs, out ++ o)
           | None => (xs, out)
           end)
        (done ++ todo, out) (seq (length done) (length todo))
  = (done ++ ((fun x => (body x).1) <$> todo),
     out ++ concat ((fun x => (body x).2) <$> todo)).
Proof.
  revert done out. induction todo as [|x todo IH]; intros done out.
  - simpl. by rewrite !app_nil_r.
  - simpl. rewrite list_lookup_middle by done.
    destruct (body x) as [x' o] eqn:Hbody. simpl.
    rewrite (insert_app_r_alt done) by done. rewrite Nat.sub_diag. simpl.
    rewrite (cons_middle x'), app_assoc.
    replace (S (length done)) with (length (done ++ [x']))
      by (rewrite length_app; simpl; lia).
    rewrite IH. by rewrite <- !app_assoc.
Qed.

Lemma forRange_fmap {A : Type} (body : A -> A * list Output) (xs : list A) :
  forRange body xs =
    ((fun x => (body x).1) <$> xs, concat ((fun x => (body x).2) <$> xs)).
Proof. apply (forRange_from body xs [] []). Qed.

(** Appending the elements that pass a test is filtering. *)
Lemma foldl_append_filter {A : Type} (p : A -> bool) (xs acc : list A) :
  foldl (fun acc x => if p x then acc ++ [x] else acc) acc xs
  = acc ++ filter p xs.
Proof.
  revert acc. induction xs as [|x xs IH]; intros acc; simpl.
  - by rewrite app_nil_r.
  - rewrite IH. destruct (p x) eqn:Hp.
    + rewrite filter_cons_True by (by rewrite Hp). by rewrite <- app_assoc.
    + rewrite filter_cons_False; [done|]. rewrite Hp. exact id.
Qed.

End LoopFacts.

(** ** filterToMainChain *)

Section FilterFacts.

Context {float64 : Type}.
Abbreviation Joint := (@Joint float64).
Abbreviation Link := (@Link float64).
Abbreviation Robot := (@Robot float64).

Lemma isMainJoint_spec (joint : Joint) :
  isMainJoint joint <->
  Joint_Type joint = "revolute" \/ Joint_Type joint = "prismatic".
Proof.
  unfold isMainJoint. rewrite orb_True, !bool_decide_spec. done.
Qed.

Lemma index_insert_true (linkSet : gmap string bool) (key name : string) :
  index (<[key := true]> linkSet) name
  = bool_decide (key = name) || index linkSet name.
Proof.
  unfold index. rewrite lookup_insert. case_decide as Hk; simpl.
  - by rewrite bool_decide_true.
  - by rewrite bool_decide_false.
Qed.

Lemma index_addJointLinks (linkSet : gmap string bool) (joint : Joint)
    (name : string) :
  index (addJointLinks linkSet joint) name
  = bool_decide (name ∈ jointLinks joint) || index linkSet name.
Proof.
  unfold addJointLinks, jointLinks.
  destruct (Joint_Parent joint) as [parent|],
           (Joint_Child joint) as [child|]; simpl;
    rewrite ?index_insert_true; apply eq_true_iff_eq;
    rewrite ?orb_true_iff, ?bool_decide_eq_true;
    rewrite ?elem_of_cons, ?elem_of_nil; intuition congruence.
Qed.

Lemma index_linkSet (joints : list Joint) (linkSet : gmap string bool)
    (name : string) :
  index (foldl addJointLinks linkSet joints) name
  = bool_decide (referenced joints name) || index linkSet name.
Proof.
  revert linkSet. induction joints as [|joint joints IH]; intros linkSet.
  - by rewrite (bool_decide_false (referenced [] name))
      by (by intros ?%Exists_nil).
  - simpl. rewrite IH, index_addJointLinks. unfold referenced.
    destruct (decide (name ∈ jointLinks joint)) as [Hj|Hj].
    + rewrite (bool_decide_true _ Hj), orb_true_r.
      rewrite bool_decide_true; [done|]. by left.
    + rewrite (bool_decide_false _ Hj). simpl. f_equal.
      apply bool_decide_ext. rewrite Exists_cons. tauto.
Qed.

(** The result of the filter, as two filters. *)
Lemma filterToMainChain_filter (robot : Robot) :
  (filterToMainChain robot).1 =
    let mainJoints := filter (fun j : Joint => isMainJoint j) (Joints robot) in
    {| Robot_XMLName := Robot_XMLName robot;
       Robot_Name := Robot_Name robot;
       Links := filter (fun l : Link => referenced mainJoints (Link_Name l))
                       (Links robot);
       Joints := mainJoints |}.
Proof.
  unfold filterToMainChain. simpl.
  rewrite !foldl_append_filter. simpl. f_equal.
  apply list_filter_iff. intros l.
  rewrite index_linkSet. unfold index at 1. rewrite lookup_empty. simpl.
  rewrite orb_false_r. by rewrite bool_decide_spec.
Qed.

Lemma filterToMainChain_stdout (robot : Robot) :
  (filterToMainChain robot).2 =
    [OutFiltered (length (Links (filterToMainChain robot).1))
                 (length (Joints (filterToMainChain robot).1))].
Proof. done. Qed.

Lemma filter_idempotent {A : Type} (P : A -> Prop) `{!forall x, Decision (P x)}
    (xs : list A) :
  filter P (filter P xs) = filter P xs.
Proof. by apply list_filter_filter_l. Qed.

End FilterFacts.

(** ** processLink and the pass over all links *)

Section ProcessFacts.

Context {float64 : Type}.
Variable W : @World float64.
Variable baseDir : string.
Abbreviation Link := (@Link float64).
Abbreviation Robot := (@Robot float64).

Lemma processLink_Collision (link : Link) :
  Link_Collision (processLink W baseDir link).1
  = (fun c => (processCollision W baseDir c).1) <$> Link_Collision link.
Proof. unfold processLink. by rewrite forRange_fmap. Qed.

Lemma processLink_stdout (link : Link) :
  (processLink W baseDir link).2
  = concat ((fun c => (processCollision W baseDir c).2) <$> Link_Collision link).
Proof. unfold processLink. by rewrite forRange_fmap. Qed.

Lemma processLink_Inertial (link : Link) :
  Link_Inertial (processLink W baseDir link).1 = None.
Proof. unfold processLink. by destruct (forRange _ _). Qed.

Lemma processLink_Visual (link : Link) :
  Link_Visual (processLink W baseDir link).1 = [].
Proof. unfold processLink. by destruct (forRange _ _). Qed.

Lemma processLink_Name (link : Link) :
  Link_Name (processLink W baseDir link).1 = Link_Name link.
Proof. unfold processLink. by destruct (forRange _ _). Qed.

Lemma processLink_Origin (link : Link) :
  Link_Origin (processLink W baseDir link).1
  = match Link_Inertial link with
    | Some inertial =>
        match Inertial_Origin inertial with
        | Some o => Some o
        | None => Link_Origin link
        end
    | None => Link_Origin link
    end.
Proof. unfold processLink. by destruct (forRange _ _). Qed.

(** A collision without a mesh is not touched and prints nothing. *)
Lemma processCollision_no_mesh (c : Collision) :
  (forall g, Collision_Geometry c = Some g -> Geometry_Mesh g = None) ->
  processCollision W baseDir c = (c, []).
Proof.
  intros Hc. unfold processCollision.
  destruct (Collision_Geometry c) as [g|] eqn:Hg; [|done].
  by rewrite (Hc g eq_refl).
Qed.

(** A collision whose mesh cannot be measured is not touched either. *)
Lemma processCollision_failure (c : Collision) g mesh err :
  Collision_Geometry c = Some g -> Geometry_Mesh g = Some mesh ->
  CalculateBoundingBoxFromFile W
    (resolvePackageURI W (Filename mesh) baseDir) = inr err ->
  processCollision W baseDir c
  = (c, [OutStlPath (resolvePackageURI W (Filename mesh) baseDir);
         OutWarning (Filename mesh) err]).
Proof.
  intros Hg Hmesh Herr. unfold processCollision.
  by rewrite Hg, Hmesh, Herr.
Qed.


(** One warning for every mesh that cannot be measured, and no other. *)
Lemma processCollision_warnings (c : Collision) :
  length (filter isWarning (processCollision W baseDir c).2)
  = if meshFails W baseDir c then 1 else 0.
Proof.
  unfold meshFails, processCollision.
  destruct (Collision_Geometry c) as [g|]; [|done].
  destruct (Geometry_Mesh g) as [mesh|]; [|done].
  destruct (CalculateBoundingBoxFromFile W _) as [bbox|err]; [|done].
  by destruct (Dimensions bbox) as [[width height] depth].
Qed.

Lemma warnings_concat {A : Type} (f : A -> list (@Output float64))
    (p : A -> bool) (xs : list A) :
  (forall x, length (filter isWarning (f x)) = if p x then 1 else 0) ->
  length (filter isWarning (concat (f <$> xs))) = length (filter p xs).
Proof.
  intros Hf. induction xs as [|x xs IH]; [done|].
  rewrite fmap_cons.
  change (concat (f x :: (f <$> xs))) with (f x ++ concat (f <$> xs)).
  rewrite filter_app, length_app, IH, Hf.
  destruct (p x) eqn:Hp.
  - by rewrite filter_cons_True by (by rewrite Hp).
  - rewrite filter_cons_False; [done|]. rewrite Hp. exact id.
Qed.

Lemma processLink_warnings (link : Link) :
  length (filter isWarning (processLink W baseDir link).2)
  = length (filter (meshFails W baseDir) (Link_Collision link)).
Proof.
  rewrite processLink_stdout.
  apply warnings_concat, processCollision_warnings.
Qed.

(** The pass of main over the links, then the filter. *)
Lemma simplify_filter (robot : Robot) :
  (simplify W baseDir robot).1 =
    let mainJoints := filter (fun j : Joint => isMainJoint j) (Joints robot) in
    {| Robot_XMLName := Robot_XMLName robot;
       Robot_Name := Robot_Name robot;
       Links := filter (fun l : Link => referenced mainJoints (Link_Name l))
                       ((fun l => (processLink W baseDir l).1) <$> Links robot);
       Joints := mainJoints |}.
Proof.
  unfold simplify. rewrite forRange_fmap.
  match goal with
  | |- context [filterToMainChain ?r] =>
      pose proof (filterToMainChain_filter r) as H;
      destruct (filterToMainChain r) as [r' out]
  end.
  simpl in H |- *. by rewrite H.
Qed.

Lemma simplify_stdout (robot : Robot) :
  (simplify W baseDir robot).2 =
    concat ((fun l => (processLink W baseDir l).2) <$> Links robot)
    ++ [OutFiltered (length (Links (simplify W baseDir robot).1))
                    (length (Joints (simplify W baseDir robot).1))].
Proof. unfold simplify. by rewrite forRange_fmap. Qed.

Lemma simplify_Links_elem (robot : Robot) (l' : Link) :
  l' ∈ Links (simplify W baseDir robot).1 ->
  exists l, l ∈ Links robot /\ l' = (processLink W baseDir l).1.
Proof.
  rewrite simplify_filter. simpl.
  intros [_ Hin]%list_elem_of_filter.
  apply list_elem_of_fmap in Hin as (l & -> & Hl). eauto.
Qed.

Lemma count_concat {A B C : Type} (P : B -> Prop) (Q : C -> Prop)
    `{!forall y, Decision (P y), !forall z, Decision (Q z)}
    (f : A -> list B) (g : A -> list C) (xs : list A) :
  (forall x, length (filter P (f x)) = length (filter Q (g x))) ->
  length (filter P (concat (f <$> xs)))
  = length (filter Q (concat (g <$> xs))).
Proof.
  intros Hfg. induction xs as [|x xs IH]; [done|].
  rewrite !fmap_cons.
  change (concat (f x :: (f <$> xs))) with (f x ++ concat (f <$> xs)).
  change (concat (g x :: (g <$> xs))) with (g x ++ concat (g <$> xs)).
  by rewrite !filter_app, !length_app, IH, Hfg.
Qed.

(** Over the whole run: as many warnings as collision meshes that
    cannot be measured. *)
Lemma simplify_warnings (robot : Robot) :
  length (filter isWarning (simplify W baseDir robot).2)
  = length (filter (meshFails W baseDir)
                   (concat (Link_Collision <$> Links robot))).
Proof.
  rewrite simplify_stdout, filter_app, length_app. simpl.
  rewrite Nat.add_0_r.
  apply (count_concat (fun o => isWarning o) (fun c => meshFails W baseDir c)
           (fun l => (processLink W baseDir l).2) Link_Collision).
  apply processLink_warnings.
Qed.

End ProcessFacts.

(** ** main *)

Lemma main_success {float64 : Type} (W : @World float64)
    (prog inputPath outputPath data output : string) (robot : @Robot float64) :
  os_ReadFile W inputPath = inl data ->
  xml_Unmarshal W data = inl robot ->
  xml_MarshalIndent W (simplify W (filepath.Dir inputPath) robot).1 = inl output ->
  os_WriteFile W outputPath (xml_Header +:+ output +:+ nl) = None ->
  main W [prog; inputPath; outputPath]
  = {| exitCode := 0;
       stdout := (simplify W (filepath.Dir inputPath) robot).2
                 ++ [OutSuccess inputPath outputPath];
       written := Some (outputPath, xml_Header +:+ output +:+ nl) |}.
Proof.
  intros Hread Hparse Hmarshal Hwrite. unfold main.
  rewrite decide_False by (simpl; lia). simpl.
  rewrite Hread, Hparse.
  destruct (simplify W (filepath.Dir inputPath) robot) as [robot' out].
  simpl in Hmarshal |- *. by rewrite Hmarshal, Hwrite.
Qed.

(** ** The examples, evaluated *)

Example Clean_examples :
  filepath.Clean "a//b/./c/.." = "a/b" /\
  filepath.Clean "/../a/" = "/a" /\
  filepath.Clean "../../x/../.." = "../../.." /\
  filepath.Clean "/" = "/" /\
  filepath.Clean "./" = "." /\
  filepath.Join "/x" "meshes/arm.stl" = "/x/meshes/arm.stl" /\
  filepath.Join "/x/" "" = "/x" /\
  filepath.Join "" "a/../b" = "b" /\
  filepath.Dir "/x/robot.urdf" = "/x" /\
  filepath.Dir "robot.urdf" = "." /\
  filepath.Dir "/robot.urdf" = "/" /\
  filepath.Base "/x/nested/arm.stl" = "arm.stl" /\
  filepath.Base "/x/nested/" = "nested" /\
  filepath.Base "///" = "/".
Proof. repeat split; vm_compute; reflexivity. Qed.

Example SplitN_examples :
  GoStrings.SplitN "ur_description/meshes/ur20/base.stl" "/" 2
    = ["ur_description"; "meshes/ur20/base.stl"] /\
  GoStrings.SplitN "base.stl" "/" 2 = ["base.stl"] /\
  GoStrings.SplitN "/base.stl" "/" 2 = [""; "base.stl"] /\
  GoStrings.SplitN "pkg/" "/" 2 = ["pkg"; ""] /\
  GoStrings.HasSuffix "/x/nested/meshes/arm.stl" "meshes/arm.stl" = true /\
  GoStrings.HasSuffix "arm.stl" "meshes/arm.stl" = false /\
  GoStrings.TrimPrefix "package://a/b" "package://" = "a/b".
Proof. repeat split; vm_compute; reflexivity. Qed.

Example resolve_examples :
  resolvePackageURI Scenario.xWorld "package://foo_description/meshes/arm.stl" "/x"
    = "/x/nested/meshes/arm.stl" /\
  resolvePackageURI Scenario.xWorld "package://foo_description/meshes/leg.stl" "/x"
    = "/x/meshes/leg.stl" /\
  resolvePackageURI Scenario.xWorld "package://arm.stl" "/x"
    = "/x/nested/meshes/arm.stl" /\
  resolvePackageURI Scenario.xWorld "package://foo_description/nested" "/x"
    = "/x/nested" /\
  resolvePackageURI Scenario.xWorld "/abs/arm.stl" "/x" = "/abs/arm.stl" /\
  resolvePackageURI Scenario.xWorld "meshes/arm.stl" "/x" = "/x/meshes/arm.stl".
Proof. repeat split; vm_compute; reflexivity. Qed.

Example main_example :
  let run := main Scenario.goodWorld ["urdf-simplifier"; "/x/robot.urdf"; "/x/out.urdf"] in
  exitCode run = 0 /\
  length (filter isWarning (stdout run)) = 1 /\
  render Scenario.goodWorld <$> stdout run =
    ["stlPath:  /x/meshes/missing.stl" +:+ nl;
     "Warning: Could not calculate bounding box for package://arm_description/meshes/missing.stl: open /x/meshes/missing.stl: no such file or directory" +:+ nl;
     "stlPath:  /x/meshes/good.stl" +:+ nl;
     "Replaced mesh good.stl with box of width, height, depth = (2.00000 x 4.00000 x 6.00000)" +:+ nl;
     "Set collision origin to center: (1.00000, 2.00000, 3.00000)" +:+ nl;
     " " +:+ nl;
     "Filtered to main kinematic chain: 2 links, 1 joints" +:+ nl;
     "Successfully simplified URDF: /x/robot.urdf -> /x/out.urdf" +:+ nl].
Proof. repeat split; vm_compute; reflexivity. Qed.

(** * The properties of the specification *)

(** ** Resource Locator *)

Lemma find_first {A : Type} (p : A -> bool) (before after : list A) (v : A) :
  Forall (fun u => p u = false) before -> p v = true ->
  List.find p (before ++ v :: after) = Some v.
Proof.
  intros Hbefore Hv. induction Hbefore as [|u before Hu _ IH]; simpl.
  - by rewrite Hv.
  - by rewrite Hu.
Qed.

Lemma find_nothing {A : Type} (p : A -> bool) (xs : list A) :
  Forall (fun u => p u = false) xs -> List.find p xs = None.
Proof.
  intros Hxs. induction Hxs as [|u xs Hu _ IH]; simpl; [done|]. by rewrite Hu.
Qed.

Lemma resolve_strips_package {float64 : Type} (W : @World float64)
    (pkg rest baseDir : string) :
  GoStrings.ContainsByte pkg "/" = false ->
  resolvePackageURI W ("package://" +:+ pkg +:+ "/" +:+ rest) baseDir
  = resolve_spec W baseDir rest.
Proof.
  intros Hpkg. apply resolve_package; [apply HasPrefix_app|].
  cbv zeta. rewrite TrimPrefix_app.
  change (pkg +:+ "/" +:+ rest) with (pkg +:+ String "/" rest).
  by rewrite (SplitN2_first _ _ _ Hpkg).
Qed.

(** C6.  For a URI package://<package-name>/<rest> (the package name is
    the text up to the first slash) and any base directory, in any world:
    resolvePackageURI returns join(baseDir, rest) when something exists
    there (os.Stat succeeds); otherwise the path of the first visit of the
    walk below baseDir, in traversal order, that is a file (no error, not
    a directory) whose path ends with rest, whatever comes after it in
    the walk; and join(baseDir, rest) again when the walk has no such
    visit. *)
Theorem resolvePackageURI_package {float64 : Type} (W : @World float64)
    (pkg rest baseDir : string) :
  GoStrings.ContainsByte pkg "/" = false ->
  let uri := "package://" +:+ pkg +:+ "/" +:+ rest in
  let candidate := filepath.Join baseDir rest in
  (os_Stat W candidate = true ->
   resolvePackageURI W uri baseDir = candidate)
  /\ (os_Stat W candidate = false ->
      forall before v after,
        visitsFrom W baseDir = before ++ v :: after ->
        Forall (fun u => isFileWithSuffix rest u = false) before ->
        vErr v = false -> vInfo v = Some {| IsDir := false |} ->
        (exists p, vPath v = p +:+ rest) ->
        resolvePackageURI W uri baseDir = vPath v)
  /\ (os_Stat W candidate = false ->
      Forall (fun u => isFileWithSuffix rest u = false) (visitsFrom W baseDir) ->
      resolvePackageURI W uri baseDir = candidate).
Proof.
  intros Hpkg uri candidate. subst uri.
  rewrite (resolve_strips_package W pkg rest baseDir Hpkg).
  unfold resolve_spec. fold candidate. repeat split.
  - by intros ->.
  - intros -> before v after -> Hbefore Herr Hinfo Hsuffix.
    rewrite (find_first _ before after v Hbefore); [done|].
    unfold isFileWithSuffix. rewrite Herr, Hinfo. simpl.
    by apply HasSuffix_spec.
  - intros -> Hnone. by rewrite (find_nothing _ _ Hnone).
Qed.

(** The resolution fallback of the specification: /x/meshes/arm.stl does
    not exist and /x/nested/meshes/arm.stl does. *)
Lemma resolvePackageURI_package_witness :
  os_Stat Scenario.xWorld "/x/meshes/arm.stl" = false /\
  os_Stat Scenario.xWorld "/x/nested/meshes/arm.stl" = true /\
  resolvePackageURI Scenario.xWorld
    "package://foo_description/meshes/arm.stl" "/x"
  = "/x/nested/meshes/arm.stl".
Proof.
  split; [reflexivity|]. split; [reflexivity|].
  pose proof (resolvePackageURI_package Scenario.xWorld
                "foo_description" "meshes/arm.stl" "/x" eq_refl) as H.
  cbv zeta in H. destruct H as (_ & Hfallback & _).
  apply (Hfallback eq_refl
    [ {| vPath := "/x"; vInfo := Some {| IsDir := true |}; vErr := false |};
      {| vPath := "/x/nested"; vInfo := Some {| IsDir := true |}; vErr := false |};
      {| vPath := "/x/nested/meshes"; vInfo := Some {| IsDir := true |};
         vErr := false |} ]
    {| vPath := "/x/nested/meshes/arm.stl"; vInfo := Some {| IsDir := false |};
       vErr := false |}
    []).
  - vm_compute. reflexivity.
  - repeat constructor.
  - reflexivity.
  - reflexivity.
  - exists "/x/nested/". reflexivity.
Defined.

(** C10.  A URI package://X whose X has no slash keeps X whole: no
    package name is stripped, the candidate is join(baseDir, X) and the
    fallback search looks for files whose path ends with X. *)
Theorem resolvePackageURI_no_slash {float64 : Type} (W : @World float64)
    (X baseDir : string) :
  GoStrings.ContainsByte X "/" = false ->
  GoStrings.SplitN X "/" 2 = [X]
  /\ resolvePackageURI W ("package://" +:+ X) baseDir
     = (let candidate := filepath.Join baseDir X in
        if os_Stat W candidate then candidate
        else
          match List.find (isFileWithSuffix X) (visitsFrom W baseDir) with
          | Some v => vPath v
          | None => candidate
          end).
Proof.
  intros HX. pose proof (SplitN2_none X "/" HX) as Hsplit.
  split; [done|].
  apply (resolve_package W _ baseDir X); [apply HasPrefix_app|].
  cbv zeta. rewrite TrimPrefix_app, Hsplit. done.
Qed.

(** package://arm.stl below /x: the candidate /x/arm.stl does not exist,
    the search finds the file whose path ends with arm.stl. *)
Lemma resolvePackageURI_no_slash_witness :
  resolvePackageURI Scenario.xWorld "package://arm.stl" "/x"
  = "/x/nested/meshes/arm.stl".
Proof.
  destruct (resolvePackageURI_no_slash Scenario.xWorld "arm.stl" "/x" eq_refl)
    as [_ H].
  refine (eq_trans H _). vm_compute. reflexivity.
Defined.

(** ** Chain Filter *)

(** C2.  The filter keeps exactly the joints whose type is the string
    revolute or the string prismatic, and exactly the links whose name is
    the parent or the child of a kept joint, both in their original order;
    a joint of type continuous, fixed, or Revolute with a capital is not
    kept.  On the chain A -fixed- B -revolute- C -prismatic- D -fixed- E
    the joints BC and CD and the links B, C and D remain. *)
Theorem filterToMainChain_retains :
  (forall (float64 : Type) (robot : @Robot float64),
     let out := (filterToMainChain robot).1 in
     Joints out
       = filter (fun j => Joint_Type j = "revolute" \/ Joint_Type j = "prismatic")
                (Joints robot)
     /\ Links out
       = filter (fun l => referenced (Joints out) (Link_Name l)) (Links robot)
     /\ (forall l, l ∈ Links out <->
           l ∈ Links robot
           /\ exists j, j ∈ Joints out /\ Link_Name l ∈ jointLinks j)
     /\ (forall j, j ∈ Joints out ->
           Joint_Type j <> "continuous" /\ Joint_Type j <> "fixed"
           /\ Joint_Type j <> "Revolute" /\ Joint_Type j <> "PRISMATIC"))
  /\ (let out := (filterToMainChain Scenario.chain).1 in
      Joints out = [Scenario.joint "BC" "revolute" "B" "C";
                    Scenario.joint "CD" "prismatic" "C" "D"]
      /\ Links out = [Scenario.link "B" [] None; Scenario.link "C" [] None;
                      Scenario.link "D" [] None]).
Proof.
  split; [|by vm_compute].
  intros float64 robot out. subst out.
  rewrite filterToMainChain_filter. simpl.
  assert (filter (fun j : Joint => isMainJoint j) (Joints robot)
          = filter (fun j => Joint_Type j = "revolute" \/ Joint_Type j = "prismatic")
                   (Joints robot)) as Hjoints
    by (apply list_filter_iff; intros j; apply isMainJoint_spec).
  rewrite Hjoints. split; [done|]. split; [done|]. split.
  - intros l. rewrite list_elem_of_filter. unfold referenced.
    rewrite Exists_exists. tauto.
  - intros j [[-> | ->] _]%list_elem_of_filter; done.
Qed.

(** C7.  The filter is idempotent: a second pass changes neither the
    robot nor the counts it reports. *)
Theorem filterToMainChain_idempotent {float64 : Type} (robot : @Robot float64) :
  (filterToMainChain (filterToMainChain robot).1).1 = (filterToMainChain robot).1
  /\ Links (filterToMainChain (filterToMainChain robot).1).1
     = Links (filterToMainChain robot).1
  /\ Joints (filterToMainChain (filterToMainChain robot).1).1
     = Joints (filterToMainChain robot).1
  /\ (filterToMainChain (filterToMainChain robot).1).2
     = (filterToMainChain robot).2.
Proof.
  assert ((filterToMainChain (filterToMainChain robot).1).1
          = (filterToMainChain robot).1) as Hfix.
  { rewrite (filterToMainChain_filter (filterToMainChain robot).1).
    rewrite (filterToMainChain_filter robot). simpl.
    rewrite !filter_idempotent. done. }
  split; [done|]. rewrite !filterToMainChain_stdout, Hfix. done.
Qed.




(** ** Link Simplifier *)

(** C3.  When the bounding box of the mesh of a collision entry is
    computed, the entry comes out of processLink with the mesh gone, a box
    whose size is the printed width, height and depth, an origin whose xyz
    is the printed centre, and the rpy it had (empty when the origin had
    to be created). *)
Theorem processLink_replaces_mesh {float64 : Type} (W : @World float64)
    (baseDir : string) (link : @Link float64) (i : nat) (c : Collision)
    (g : Geometry) (mesh : Mesh) (bbox : @BoundingBox float64) :
  Link_Collision link !! i = Some c ->
  Collision_Geometry c = Some g ->
  Geometry_Mesh g = Some mesh ->
  CalculateBoundingBoxFromFile W (resolvePackageURI W (Filename mesh) baseDir)
    = inl bbox ->
  exists c' g' box origin',
    Link_Collision (processLink W baseDir link).1 !! i = Some c'
    /\ Collision_Geometry c' = Some g'
    /\ Geometry_Mesh g' = None
    /\ Geometry_Box g' = Some box
    /\ Size box = Sprintf3 W (Dimensions bbox).1.1 (Dimensions bbox).1.2
                             (Dimensions bbox).2
    /\ Collision_Origin c' = Some origin'
    /\ XYZ origin' = Sprintf3 W (Point_X (Center bbox)) (Point_Y (Center bbox))
                                (Point_Z (Center bbox))
    /\ RPY origin' = from_option RPY "" (Collision_Origin c).
Proof.
  intros Hi Hg Hmesh Hbox.
  rewrite processLink_Collision, list_lookup_fmap, Hi. simpl.
  unfold processCollision. rewrite Hg, Hmesh, Hbox.
  destruct (Dimensions bbox) as [[width height] depth]. simpl.
  do 4 eexists. repeat split.
  by destruct (Collision_Origin c).
Qed.

(** The measurable mesh of the two-mesh document becomes a box of size
    2 x 4 x 6 centred at (1, 2, 3). *)
Lemma processLink_replaces_mesh_witness :
  exists link c',
    Links Scenario.twoMeshes !! 1 = Some link
    /\ Link_Collision (processLink Scenario.goodWorld "/x" link).1 !! 1 = Some c'
    /\ (Geometry_Mesh <$> Collision_Geometry c') = Some None
    /\ (fmap Size <$> (Geometry_Box <$> Collision_Geometry c'))
       = Some (Some "2.000000 4.000000 6.000000")
    /\ (XYZ <$> Collision_Origin c') = Some "1.000000 2.000000 3.000000"
    /\ (RPY <$> Collision_Origin c') = Some "".
Proof.
  eexists. 
  destruct (processLink_replaces_mesh Scenario.goodWorld "/x"
              (Scenario.link "arm"
                 [Scenario.meshCollision "package://arm_description/meshes/missing.stl";
                  Scenario.meshCollision "package://arm_description/meshes/good.stl"]
                 None)
              1 (Scenario.meshCollision "package://arm_description/meshes/good.stl")
              _ _ Scenario.unitBox eq_refl eq_refl eq_refl eq_refl)
    as (c' & g' & box & origin' & Hc' & Hg' & Hm & Hb & Hsize & Ho & Hxyz & Hrpy).
  exists c'. split; [reflexivity|]. split; [exact Hc'|].
  rewrite Hg', Ho. simpl. rewrite Hm, Hb. simpl.
  rewrite Hsize, Hxyz, Hrpy. repeat split.
Defined.

(** C4.  A link with an inertial block that holds an origin leaves
    processLink with that origin as its own, whatever origin it had, and
    without inertial block; no link of the output of the pipeline has an
    inertial block. *)
Theorem processLink_relocates_origin {float64 : Type} (W : @World float64)
    (baseDir : string) (link : @Link float64) (inertial : @Inertial float64)
    (origin : Origin) :
  Link_Inertial link = Some inertial ->
  Inertial_Origin inertial = Some origin ->
  Link_Origin (processLink W baseDir link).1 = Some origin
  /\ Link_Inertial (processLink W baseDir link).1 = None
  /\ (forall robot l',
        l' ∈ Links (simplify W baseDir robot).1 -> Link_Inertial l' = None).
Proof.
  intros Hinertial Horigin. split; [|split].
  - by rewrite processLink_Origin, Hinertial, Horigin.
  - apply processLink_Inertial.
  - intros robot l' (l & _ & ->)%simplify_Links_elem.
    apply processLink_Inertial.
Qed.

(** The link of the specification: inertial origin xyz 1 2 3, no origin
    of its own. *)
Lemma processLink_relocates_origin_witness :
  Link_Origin Scenario.heavyLink = None
  /\ (XYZ <$> Link_Origin (processLink Scenario.goodWorld "/x" Scenario.heavyLink).1)
     = Some "1 2 3"
  /\ Link_Inertial (processLink Scenario.goodWorld "/x" Scenario.heavyLink).1 = None.
Proof.
  split; [reflexivity|].
  destruct (processLink_relocates_origin Scenario.goodWorld "/x"
              Scenario.heavyLink _ Scenario.inertialOrigin eq_refl eq_refl)
    as (Ho & Hi & _).
  rewrite Ho, Hi. split; reflexivity.
Defined.

(** C5.  When the bounding box of the mesh of a collision entry cannot be
    computed, processLink leaves the entry as it was (mesh, box and origin
    untouched) and prints one warning for it, with the mesh reference and
    the error.  The loop goes on: every entry of the link is rewritten by
    the loop body on its own, every link of the document is processed, and
    over the whole run there are as many warnings as entries whose mesh
    cannot be measured.  A run that reads, parses, serialises and writes
    without error exits with status 0 whatever the meshes did. *)
Theorem processLink_oracle_failure {float64 : Type} (W : @World float64)
    (baseDir : string) (link : @Link float64) (i : nat) (c : Collision)
    (g : Geometry) (mesh : Mesh) (err : string) :
  Link_Collision link !! i = Some c ->
  Collision_Geometry c = Some g ->
  Geometry_Mesh g = Some mesh ->
  CalculateBoundingBoxFromFile W (resolvePackageURI W (Filename mesh) baseDir)
    = inr err ->
  Link_Collision (processLink W baseDir link).1 !! i = Some c
  /\ filter isWarning (processCollision W baseDir c).2
     = [OutWarning (Filename mesh) err]
  /\ (forall k, Link_Collision (processLink W baseDir link).1 !! k
                = (fun c => (processCollision W baseDir c).1)
                    <$> Link_Collision link !! k)
  /\ length (filter isWarning (processLink W baseDir link).2)
     = length (filter (meshFails W baseDir) (Link_Collision link))
  /\ (forall robot,
        (forall l', l' ∈ Links (simplify W baseDir robot).1 <->
           exists l, l ∈ Links robot
             /\ l' = (processLink W baseDir l).1
             /\ referenced (Joints (simplify W baseDir robot).1) (Link_Name l))
        /\ length (filter isWarning (simplify W baseDir robot).2)
           = length (filter (meshFails W baseDir)
                            (concat (Link_Collision <$> Links robot))))
  /\ (forall prog inputPath outputPath data robot output,
        baseDir = filepath.Dir inputPath ->
        link ∈ Links robot ->
        os_ReadFile W inputPath = inl data ->
        xml_Unmarshal W data = inl robot ->
        xml_MarshalIndent W (simplify W baseDir robot).1 = inl output ->
        os_WriteFile W outputPath (xml_Header +:+ output +:+ nl) = None ->
        exitCode (main W [prog; inputPath; outputPath]) = 0).
Proof.
  intros Hi Hg Hmesh Herr.
  pose proof (processCollision_failure W baseDir c g mesh err Hg Hmesh Herr)
    as Hc.
  repeat split.
  - rewrite processLink_Collision, list_lookup_fmap, Hi. simpl.
    by rewrite Hc.
  - by rewrite Hc.
  - intros k. by rewrite processLink_Collision, list_lookup_fmap.
  - apply processLink_warnings.
  - rewrite simplify_filter. simpl.
    intros [Href (l & -> & Hl)%list_elem_of_fmap]%list_elem_of_filter.
    exists l. by rewrite processLink_Name in Href.
  - rewrite simplify_filter. simpl. intros (l & Hl & -> & Href).
    apply list_elem_of_filter. rewrite processLink_Name. split; [done|].
    apply list_elem_of_fmap. eauto.
  - apply simplify_warnings.
  - intros prog inputPath outputPath data robot output -> _ Hr Hp Hm Hw.
    by rewrite (main_success W prog inputPath outputPath data output robot).
Qed.

(** The document with one missing and one valid mesh: the run exits with
    status 0 and prints one warning; in the output the entry of the missing
    file is the mesh it was and the entry of the valid file is a box. *)
Lemma processLink_oracle_failure_witness :
  let W := Scenario.goodWorld in
  let run := main W ["urdf-simplifier"; "/x/robot.urdf"; "/x/out.urdf"] in
  let out := (simplify W "/x" Scenario.twoMeshes).1 in
  exitCode run = 0
  /\ length (filter isWarning (stdout run)) = 1
  /\ exists arm c0 c1,
       Links out !! 1 = Some arm
       /\ Link_Collision arm !! 0 = Some c0
       /\ c0 = Scenario.meshCollision "package://arm_description/meshes/missing.stl"
       /\ Link_Collision arm !! 1 = Some c1
       /\ (Geometry_Mesh <$> Collision_Geometry c1) = Some None
       /\ (fmap Size <$> (Geometry_Box <$> Collision_Geometry c1))
          = Some (Some "2.000000 4.000000 6.000000").
Proof.
  intros W run out.
  pose proof (processLink_oracle_failure W "/x"
    (Scenario.link "arm"
       [Scenario.meshCollision "package://arm_description/meshes/missing.stl";
        Scenario.meshCollision "package://arm_description/meshes/good.stl"]
       None)
    0 (Scenario.meshCollision "package://arm_description/meshes/missing.stl")
    _ _ "open /x/meshes/missing.stl: no such file or directory"
    eq_refl eq_refl eq_refl eq_refl) as (Hsame & _ & _ & _ & _ & Hexit).
  split.
  - apply (Hexit "urdf-simplifier" "/x/robot.urdf" "/x/out.urdf"
             "<robot name=arm>" Scenario.twoMeshes "<robot name=arm></robot>");
      try reflexivity.
    vm_compute. right. left.
  - split; [vm_compute; reflexivity|].
    eexists _, _, _. split; [vm_compute; reflexivity|].
    split; [exact Hsame|]. split; [reflexivity|].
    split; [vm_compute; reflexivity|]. split; vm_compute; reflexivity.
Defined.




(** * Further properties of main.go *)

(** ** processLink *)

Section MoreProcessFacts.

Context {float64 : Type}.
Variable W : @World float64.
Variable baseDir : string.

(** processLink, with the loop written as a map. *)
Lemma processLink_unfold (link : @Link float64) :
  processLink W baseDir link =
    ({| Link_XMLName := Link_XMLName link;
        Link_Name := Link_Name link;
        Link_Visual := [];
        Link_Collision :=
          (fun c => (processCollision W baseDir c).1) <$> Link_Collision link;
        Link_Inertial := None;
        Link_Origin :=
          match Link_Inertial link with
          | Some inertial =>
              match Inertial_Origin inertial with
              | Some o => Some o
              | None => Link_Origin link
              end
          | None => Link_Origin link
          end |},
     concat ((fun c => (processCollision W baseDir c).2) <$> Link_Collision link)).
Proof. unfold processLink. by rewrite forRange_fmap. Qed.

Lemma hasMesh_false (c : Collision) :
  hasMesh c = false ->
  forall g, Collision_Geometry c = Some g -> Geometry_Mesh g = None.
Proof.
  unfold hasMesh. intros H g Hg. rewrite Hg in H.
  by destruct (Geometry_Mesh g).
Qed.

Lemma meshFails_hasMesh (c : Collision) :
  meshFails W baseDir c = true -> hasMesh c = true.
Proof.
  unfold meshFails, hasMesh.
  destruct (Collision_Geometry c) as [g|]; [|done].
  by destruct (Geometry_Mesh g).
Qed.

(** The loop body leaves a mesh behind only where measuring failed. *)
Lemma processCollision_hasMesh (c : Collision) :
  hasMesh (processCollision W baseDir c).1 = meshFails W baseDir c.
Proof.
  unfold hasMesh, meshFails, processCollision.
  destruct (Collision_Geometry c) as [g|] eqn:Hg; simpl; [|by rewrite Hg].
  destruct (Geometry_Mesh g) as [mesh|] eqn:Hmesh; simpl;
    [|by rewrite Hg, Hmesh].
  destruct (CalculateBoundingBoxFromFile W _) as [bbox|err]; simpl.
  - by destruct (Dimensions bbox) as [[width height] depth].
  - by rewrite Hg, Hmesh.
Qed.

(** Running the loop body on its own result changes nothing more. *)
Lemma processCollision_again (c : Collision) :
  (processCollision W baseDir (processCollision W baseDir c).1).1
  = (processCollision W baseDir c).1.
Proof.
  destruct (meshFails W baseDir c) eqn:Hfails.
  - assert ((processCollision W baseDir c).1 = c) as Hc.
    { unfold meshFails in Hfails. unfold processCollision.
      destruct (Collision_Geometry c) as [g|]; [|done].
      destruct (Geometry_Mesh g) as [mesh|]; [|done].
      by destruct (CalculateBoundingBoxFromFile W _). }
    rewrite Hc. exact Hc.
  - rewrite (processCollision_no_mesh W baseDir (processCollision W baseDir c).1);
      [done|].
    apply hasMesh_false. by rewrite processCollision_hasMesh.
Qed.

Lemma filter_fmap {A B : Type} (f : A -> B) (P : B -> Prop)
    `{!forall y, Decision (P y)} (xs : list A) :
  filter P (f <$> xs) = f <$> filter (fun x => P (f x)) xs.
Proof.
  induction xs as [|x xs IH]; [done|].
  rewrite fmap_cons, !filter_cons. simpl.
  destruct (decide (P (f x))); by rewrite IH.
Qed.

Lemma filter_all {A : Type} (P : A -> Prop) `{!forall x, Decision (P x)}
    (xs : list A) :
  filter P xs = xs <-> Forall P xs.
Proof.
  split.
  - intros Heq. apply Forall_forall. intros x Hx.
    rewrite <- Heq in Hx. by apply list_elem_of_filter in Hx as [? _].
  - induction 1 as [|x xs Hx _ IH]; [done|].
    by rewrite filter_cons_True, IH.
Qed.

Lemma filter_none {A : Type} (P : A -> Prop) `{!forall x, Decision (P x)}
    (xs : list A) :
  Forall (fun x => ~ P x) xs -> filter P xs = [].
Proof.
  induction 1 as [|x xs Hx _ IH]; [done|]. by rewrite filter_cons_False.
Qed.

(** What the loop body leaves behind fails to be measured exactly when
    the entry did. *)
Lemma processCollision_meshFails (c : Collision) :
  meshFails W baseDir (processCollision W baseDir c).1 = meshFails W baseDir c.
Proof.
  destruct (meshFails W baseDir c) eqn:Hfails.
  - assert ((processCollision W baseDir c).1 = c) as ->; [|done].
    unfold meshFails in Hfails. unfold processCollision.
    destruct (Collision_Geometry c) as [g|]; [|done].
    destruct (Geometry_Mesh g) as [mesh|]; [|done].
    by destruct (CalculateBoundingBoxFromFile W _).
  - destruct (meshFails W baseDir (processCollision W baseDir c).1) eqn:H;
      [|done].
    apply meshFails_hasMesh in H. rewrite processCollision_hasMesh in H.
    congruence.
Qed.

Lemma processCollision_again_replaces_nothing (c : Collision) :
  filter isReplaced (processCollision W baseDir (processCollision W baseDir c).1).2
  = [].
Proof.
  destruct (meshFails W baseDir c) eqn:Hfails.
  - unfold meshFails in Hfails. unfold processCollision at 2.
    destruct (Collision_Geometry c) as [g|] eqn:Hg; [|done].
    destruct (Geometry_Mesh g) as [mesh|] eqn:Hmesh; [|done].
    destruct (CalculateBoundingBoxFromFile W _) as [bbox|err] eqn:Herr; [done|].
    simpl. by rewrite (processCollision_failure W baseDir c g mesh err).
  - rewrite (processCollision_no_mesh W baseDir (processCollision W baseDir c).1);
      [done|].
    apply hasMesh_false. by rewrite processCollision_hasMesh.
Qed.

Lemma filter_concat_nil {A B : Type} (P : B -> Prop) `{!forall y, Decision (P y)}
    (f : A -> list B) (xs : list A) :
  (forall x, filter P (f x) = []) -> filter P (concat (f <$> xs)) = [].
Proof.
  intros Hf. induction xs as [|x xs IH]; [done|].
  rewrite fmap_cons.
  change (concat (f x :: (f <$> xs))) with (f x ++ concat (f <$> xs)).
  by rewrite filter_app, Hf, IH.
Qed.

Lemma processLink_again (link : @Link float64) :
  (processLink W baseDir (processLink W baseDir link).1).1
  = (processLink W baseDir link).1.
Proof.
  rewrite (processLink_unfold (processLink W baseDir link).1).
  rewrite (processLink_unfold link). simpl. f_equal.
  rewrite <- list_fmap_compose. apply list_fmap_ext.
  intros i c _. apply processCollision_again.
Qed.

(** A link none of whose collisions has a mesh keeps them and prints
    nothing. *)
Lemma processLink_no_mesh (link : @Link float64) :
  Forall (fun c => hasMesh c = false) (Link_Collision link) ->
  Link_Collision (processLink W baseDir link).1 = Link_Collision link
  /\ (processLink W baseDir link).2 = [].
Proof.
  rewrite processLink_unfold. simpl.
  intros Hall. induction Hall as [|c cs Hc _ [IH1 IH2]]; [done|].
  rewrite !fmap_cons. simpl.
  rewrite (processCollision_no_mesh W baseDir c (hasMesh_false c Hc)).
  simpl. by rewrite IH1, IH2.
Qed.

End MoreProcessFacts.

(** X3.  processLink is idempotent on the link: a second pass over its
    result, in the same world, returns the same link.  The second pass
    replaces no mesh and repeats the warnings of the first. *)
Theorem processLink_idempotent {float64 : Type} (W : @World float64)
    (baseDir : string) (link : @Link float64) :
  let once := processLink W baseDir link in
  let twice := processLink W baseDir once.1 in
  twice.1 = once.1
  /\ filter isReplaced twice.2 = []
  /\ length (filter isWarning twice.2) = length (filter isWarning once.2).
Proof.
  intros once twice. subst once twice. split; [apply processLink_again|].
  split.
  - rewrite processLink_stdout, processLink_Collision.
    rewrite <- list_fmap_compose.
    apply (filter_concat_nil (fun o => isReplaced o)). intros c. simpl.
    apply processCollision_again_replaces_nothing.
  - rewrite !processLink_warnings, processLink_Collision.
    rewrite filter_fmap, length_fmap. f_equal.
    apply list_filter_iff. intros c.
    by rewrite processCollision_meshFails.
Qed.

(** X4.  processLink neither adds nor removes a collision entry, returns
    every entry without a mesh as it was, at the same index, and prints
    nothing when no entry has a mesh. *)
Theorem processLink_keeps_other_collisions {float64 : Type}
    (W : @World float64) (baseDir : string) (link : @Link float64) :
  length (Link_Collision (processLink W baseDir link).1)
  = length (Link_Collision link)
  /\ (forall i c, Link_Collision link !! i = Some c -> hasMesh c = false ->
        Link_Collision (processLink W baseDir link).1 !! i = Some c)
  /\ (Forall (fun c => hasMesh c = false) (Link_Collision link) ->
      Link_Collision (processLink W baseDir link).1 = Link_Collision link
      /\ (processLink W baseDir link).2 = []).
Proof.
  rewrite processLink_unfold. simpl. split; [by rewrite length_fmap|]. split.
  - intros i c Hi Hc. rewrite list_lookup_fmap, Hi. simpl.
    by rewrite (processCollision_no_mesh W baseDir c (hasMesh_false c Hc)).
  - intros Hall.
    pose proof (processLink_no_mesh W baseDir link Hall) as H.
    by rewrite processLink_unfold in H.
Qed.

(** X5.  A link without inertial block, or whose inertial block has no
    origin, keeps the origin it had; the inertial block is removed all the
    same. *)
Theorem processLink_keeps_origin {float64 : Type} (W : @World float64)
    (baseDir : string) (link : @Link float64) :
  (Link_Inertial link ≫= Inertial_Origin) = None ->
  Link_Origin (processLink W baseDir link).1 = Link_Origin link
  /\ Link_Inertial (processLink W baseDir link).1 = None.
Proof.
  intros Hnone. rewrite processLink_unfold. simpl. split; [|done].
  destruct (Link_Inertial link) as [inertial|]; [|done].
  simpl in Hnone. by rewrite Hnone.
Qed.

(** An inertial block with a mass and no origin: the origin of the link
    stays. *)
Lemma processLink_keeps_origin_witness :
  Link_Origin (processLink Scenario.goodWorld "/x" Scenario.lightLink).1
  = Some Scenario.ownOrigin
  /\ Link_Inertial (processLink Scenario.goodWorld "/x" Scenario.lightLink).1
     = None.
Proof.
  exact (processLink_keeps_origin Scenario.goodWorld "/x" Scenario.lightLink
           eq_refl).
Defined.

(** ** filterToMainChain *)

(** X10.  A robot without a revolute or prismatic joint loses all its
    joints and all its links; its name stays. *)
Theorem filterToMainChain_nothing_actuated {float64 : Type}
    (robot : @Robot float64) :
  Forall (fun j => Joint_Type j <> "revolute" /\ Joint_Type j <> "prismatic")
         (Joints robot) ->
  Joints (filterToMainChain robot).1 = []
  /\ Links (filterToMainChain robot).1 = []
  /\ Robot_Name (filterToMainChain robot).1 = Robot_Name robot
  /\ (filterToMainChain robot).2 = [OutFiltered 0 0].
Proof.
  intros Hnone.
  assert (filter (fun j : Joint => isMainJoint j) (Joints robot) = []) as Hjoints.
  { apply filter_none. eapply Forall_impl; [exact Hnone|].
    intros j [? ?] [?|?]%isMainJoint_spec; done. }
  rewrite filterToMainChain_stdout, filterToMainChain_filter. simpl.
  rewrite Hjoints. split; [done|].
  assert (filter (fun l : Link => referenced [] (Link_Name l)) (Links robot) = [])
    as ->; [|done].
  apply filter_none, Forall_forall. intros l _ H. by apply Exists_nil in H.
Qed.

(** A robot held together by a fixed and a continuous joint comes out
    empty. *)
Lemma filterToMainChain_nothing_actuated_witness :
  Joints (filterToMainChain Scenario.welded).1 = []
  /\ Links (filterToMainChain Scenario.welded).1 = []
  /\ Robot_Name (filterToMainChain Scenario.welded).1 = "arm"
  /\ (filterToMainChain Scenario.welded).2 = [OutFiltered 0 0].
Proof.
  apply (filterToMainChain_nothing_actuated Scenario.welded).
  repeat constructor; done.
Defined.

(** X11.  The robots the filter leaves as they are, are exactly those
    whose joints are all revolute or prismatic and whose links are all
    parent or child of one of them. *)
Theorem filterToMainChain_fixed_points {float64 : Type}
    (robot : @Robot float64) :
  (filterToMainChain robot).1 = robot
  <-> Forall (fun j => Joint_Type j = "revolute" \/ Joint_Type j = "prismatic")
             (Joints robot)
      /\ Forall (fun l => exists j, j ∈ Joints robot /\ Link_Name l ∈ jointLinks j)
                (Links robot).
Proof.
  rewrite filterToMainChain_filter. simpl.
  assert (Forall (fun j => Joint_Type j = "revolute" \/ Joint_Type j = "prismatic")
                 (Joints robot)
          <-> filter (fun j : Joint => isMainJoint j) (Joints robot) = Joints robot)
    as ->.
  { rewrite filter_all. apply Forall_proper; [|done].
    intros j. symmetry. apply isMainJoint_spec. }
  assert (Forall (fun l => exists j, j ∈ Joints robot /\ Link_Name l ∈ jointLinks j)
                 (Links robot)
          <-> filter (fun l : Link => referenced (Joints robot) (Link_Name l))
                     (Links robot) = Links robot) as ->.
  { rewrite filter_all. apply Forall_proper; [|done].
    intros l. unfold referenced. by rewrite Exists_exists. }
  destruct robot as [xmlname rname links joints]. simpl. split.
  - intros Heq. injection Heq as Hlinks Hjoints.
    rewrite Hjoints in Hlinks. done.
  - intros [Hjoints Hlinks]. by rewrite Hjoints, Hlinks.
Qed.

(** ** The pass over the links, then the filter *)

Section MoreSimplifyFacts.

Context {float64 : Type}.
Variable W : @World float64.
Variable baseDir : string.

Lemma referenced_processLink (joints : list (@Joint float64))
    (links : list (@Link float64)) :
  filter (fun l : Link => referenced joints (Link_Name l))
         ((fun l => (processLink W baseDir l).1) <$> links)
  = (fun l => (processLink W baseDir l).1)
      <$> filter (fun l : Link => referenced joints (Link_Name l)) links.
Proof.
  rewrite filter_fmap. f_equal. apply list_filter_iff. intros l.
  by rewrite processLink_Name.
Qed.

(** The links are processed and filtered, or filtered and processed:
    the robot is the same. *)
Lemma simplify_filter_first (robot : @Robot float64) :
  (simplify W baseDir robot).1 =
    {| Robot_XMLName := Robot_XMLName robot;
       Robot_Name := Robot_Name robot;
       Links := (fun l => (processLink W baseDir l).1)
                  <$> Links (filterToMainChain robot).1;
       Joints := Joints (filterToMainChain robot).1 |}.
Proof.
  rewrite simplify_filter, filterToMainChain_filter. simpl.
  by rewrite referenced_processLink.
Qed.

Lemma count_messages {A : Type} (kind : @Output float64 -> bool)
    (f : A -> list (@Output float64)) (p : A -> bool) (xs : list A) :
  (forall x, length (filter kind (f x)) = if p x then 1 else 0) ->
  length (filter kind (concat (f <$> xs))) = length (filter p xs).
Proof.
  intros Hf. induction xs as [|x xs IH]; [done|].
  rewrite fmap_cons.
  change (concat (f x :: (f <$> xs))) with (f x ++ concat (f <$> xs)).
  rewrite filter_app, length_app, IH, Hf.
  destruct (p x) eqn:Hp.
  - by rewrite filter_cons_True by (by rewrite Hp).
  - rewrite filter_cons_False; [done|]. rewrite Hp. exact id.
Qed.

Lemma processCollision_stlPaths (c : Collision) :
  length (filter isStlPath (processCollision W baseDir c).2)
  = if hasMesh c then 1 else 0.
Proof.
  unfold hasMesh, processCollision.
  destruct (Collision_Geometry c) as [g|]; [|done].
  destruct (Geometry_Mesh g) as [mesh|]; [|done].
  destruct (CalculateBoundingBoxFromFile W _) as [bbox|err]; [|done].
  by destruct (Dimensions bbox) as [[width height] depth].
Qed.

Lemma processCollision_replaced (c : Collision) :
  length (filter isReplaced (processCollision W baseDir c).2)
  = if hasMesh c && negb (meshFails W baseDir c) then 1 else 0.
Proof.
  unfold hasMesh, meshFails, processCollision.
  destruct (Collision_Geometry c) as [g|]; [|done].
  destruct (Geometry_Mesh g) as [mesh|]; [|done].
  destruct (CalculateBoundingBoxFromFile W _) as [bbox|err]; [|done].
  by destruct (Dimensions bbox) as [[width height] depth].
Qed.

Lemma simplify_count (kind : @Output float64 -> bool) (p : Collision -> bool)
    (robot : @Robot float64) :
  (forall links joints, kind (OutFiltered links joints) = false) ->
  (forall c, length (filter kind (processCollision W baseDir c).2)
             = if p c then 1 else 0) ->
  length (filter kind (simplify W baseDir robot).2)
  = length (filter p (concat (Link_Collision <$> Links robot))).
Proof.
  intros Hfiltered Hkind.
  rewrite simplify_stdout, filter_app, length_app.
  rewrite filter_cons_False; [|rewrite Hfiltered; exact id].
  rewrite filter_nil. simpl. rewrite Nat.add_0_r.
  apply (count_concat (fun o => kind o) (fun c => p c)
           (fun l => (processLink W baseDir l).2) Link_Collision).
  intros l. rewrite processLink_stdout. by apply count_messages.
Qed.

Lemma simplify_again (robot : @Robot float64) :
  (simplify W baseDir (simplify W baseDir robot).1).1
  = (simplify W baseDir robot).1.
Proof.
  rewrite (simplify_filter W baseDir (simplify W baseDir robot).1).
  rewrite (simplify_filter W baseDir robot). simpl.
  rewrite filter_idempotent.
  set (joints := filter (fun j : Joint => isMainJoint j) (Joints robot)).
  rewrite (referenced_processLink joints (Links robot)).
  rewrite !referenced_processLink, filter_idempotent.
  f_equal. rewrite <- list_fmap_compose. apply list_fmap_ext.
  intros i l _. apply processLink_again.
Qed.

End MoreSimplifyFacts.

(** X6.  Processing every link and then filtering gives the robot that
    filtering first and processing only the kept links gives. *)
Theorem simplify_filter_commute {float64 : Type} (W : @World float64)
    (baseDir : string) (robot : @Robot float64) :
  Links (simplify W baseDir robot).1
  = (fun l => (processLink W baseDir l).1) <$> Links (filterToMainChain robot).1
  /\ Joints (simplify W baseDir robot).1 = Joints (filterToMainChain robot).1
  /\ Robot_Name (simplify W baseDir robot).1 = Robot_Name robot
  /\ Robot_XMLName (simplify W baseDir robot).1 = Robot_XMLName robot.
Proof. by rewrite simplify_filter_first. Qed.

(** X8.  In the output of the pass the links are the processed links of
    the document whose name a kept joint refers to, in document order;
    none has a visual or an inertial element, and the joints are those of
    the document, untouched by the world. *)
Theorem simplify_links {float64 : Type} (W : @World float64)
    (baseDir : string) (robot : @Robot float64) :
  let out := (simplify W baseDir robot).1 in
  Link_Name <$> Links out
  = filter (fun name => referenced (Joints out) name) (Link_Name <$> Links robot)
  /\ Forall (fun l => Link_Visual l = [] /\ Link_Inertial l = None) (Links out)
  /\ Joints out
     = filter (fun j => Joint_Type j = "revolute" \/ Joint_Type j = "prismatic")
              (Joints robot).
Proof.
  intros out. subst out. rewrite simplify_filter. simpl. split; [|split].
  - rewrite referenced_processLink, (filter_fmap Link_Name).
    rewrite <- list_fmap_compose.
    apply list_fmap_ext. intros i l _. simpl. apply processLink_Name.
  - apply Forall_forall.
    intros l' [_ (l & -> & _)%list_elem_of_fmap]%list_elem_of_filter.
    by rewrite processLink_Visual, processLink_Inertial.
  - apply list_filter_iff. intros j. apply isMainJoint_spec.
Qed.

(** X9.  The pass prints one stlPath line for every collision mesh of
    the document, one Replaced line for every mesh that was measured and
    one Warning for every mesh that was not, counting the links the
    filter drops afterwards too; the report of the filter comes last. *)
Theorem simplify_messages {float64 : Type} (W : @World float64)
    (baseDir : string) (robot : @Robot float64) :
  let out := (simplify W baseDir robot).2 in
  let collisions := concat (Link_Collision <$> Links robot) in
  length (filter isStlPath out) = length (filter hasMesh collisions)
  /\ length (filter isReplaced out)
     = length (filter (fun c => hasMesh c && negb (meshFails W baseDir c))
                      collisions)
  /\ length (filter isWarning out)
     = length (filter (meshFails W baseDir) collisions)
  /\ last out = Some (OutFiltered (length (Links (simplify W baseDir robot).1))
                                  (length (Joints (simplify W baseDir robot).1))).
Proof.
  intros out collisions. subst out collisions. repeat split.
  - apply (simplify_count W baseDir isStlPath hasMesh); [done|].
    apply processCollision_stlPaths.
  - apply (simplify_count W baseDir isReplaced
             (fun c => hasMesh c && negb (meshFails W baseDir c))); [done|].
    apply processCollision_replaced.
  - apply simplify_warnings.
  - rewrite simplify_stdout. apply last_snoc.
Qed.

(** X7.  The pass of main is idempotent on the robot: simplifying the
    simplified robot again, in the same world, returns it unchanged.  When
    every collision mesh of the document was measured, the second pass
    finds no mesh and prints the report of the filter and nothing else. *)
Theorem simplify_idempotent {float64 : Type} (W : @World float64)
    (baseDir : string) (robot : @Robot float64) :
  let once := simplify W baseDir robot in
  let twice := simplify W baseDir once.1 in
  twice.1 = once.1
  /\ (Forall (fun l => Forall (fun c => meshFails W baseDir c = false)
                             (Link_Collision l)) (Links robot) ->
      twice.2 = [OutFiltered (length (Links once.1)) (length (Joints once.1))]).
Proof.
  intros once twice. subst once twice. split; [apply simplify_again|].
  intros Hok. rewrite simplify_stdout, simplify_again.
  match goal with |- ?l ++ _ = _ => assert (l = []) as ->; [|done] end.
  rewrite simplify_filter. simpl.
  generalize (filter (fun j : Joint => isMainJoint j) (Joints robot)).
  intros joints.
  induction Hok as [|l links Hl _ IH]; [done|].
  rewrite fmap_cons, filter_cons.
  destruct (decide _); [|exact IH].
  rewrite fmap_cons. simpl. rewrite IH, app_nil_r.
  apply (processLink_no_mesh W baseDir).
  rewrite processLink_Collision. apply Forall_fmap, Forall_forall.
  intros c Hc. simpl. rewrite processCollision_hasMesh.
  by apply (proj1 (Forall_forall _ _) Hl).
Qed.

(** The two-mesh document once both files are there: the second pass
    changes nothing and prints one line. *)
Lemma simplify_idempotent_witness :
  let once := simplify Scenario.fullWorld "/x" Scenario.twoMeshes in
  let twice := simplify Scenario.fullWorld "/x" once.1 in
  twice.1 = once.1 /\ twice.2 = [OutFiltered 2 1].
Proof.
  intros once twice.
  destruct (simplify_idempotent Scenario.fullWorld "/x" Scenario.twoMeshes)
    as [Hsame Hsilent].
  split; [exact Hsame|].
  refine (eq_trans (Hsilent _) _).
  - repeat constructor.
  - vm_compute. reflexivity.
Defined.

(** ** resolvePackageURI *)

Lemma resolve_nonempty {float64 : Type} (W : @World float64)
    (uri baseDir : string) :
  baseDir <> "" -> resolvePackageURI W uri baseDir <> "".
Proof.
  intros Hbase. unfold resolvePackageURI.
  destruct (GoStrings.HasPrefix uri "package://").
  - cbv zeta. destruct (os_Stat W _); [by apply Join_nonempty|].
    case_decide; [done|by apply Join_nonempty].
  - destruct (filepath.IsAbs uri) eqn:Habs; [|by apply Join_nonempty].
    by destruct uri.
Qed.

(** X12.  The package name of a package URI plays no part: two URIs that
    differ in the package name only resolve to the same path. *)
Theorem resolvePackageURI_ignores_package {float64 : Type}
    (W : @World float64) (pkg1 pkg2 rest baseDir : string) :
  GoStrings.ContainsByte pkg1 "/" = false ->
  GoStrings.ContainsByte pkg2 "/" = false ->
  resolvePackageURI W ("package://" +:+ pkg1 +:+ "/" +:+ rest) baseDir
  = resolvePackageURI W ("package://" +:+ pkg2 +:+ "/" +:+ rest) baseDir.
Proof.
  intros H1 H2. by rewrite !resolve_strips_package.
Qed.

Lemma resolvePackageURI_ignores_package_witness :
  resolvePackageURI Scenario.xWorld "package://foo_description/meshes/arm.stl" "/x"
  = resolvePackageURI Scenario.xWorld "package://other/meshes/arm.stl" "/x".
Proof.
  exact (resolvePackageURI_ignores_package Scenario.xWorld
           "foo_description" "other" "meshes/arm.stl" "/x" eq_refl eq_refl).
Defined.

(** X13.  A reference without the package scheme never touches the file
    system: one that starts with a slash is returned as it is, any other
    (a relative path, but also a URI of another scheme) is joined to the
    base directory. *)
Theorem resolvePackageURI_plain {float64 : Type} (W W' : @World float64)
    (uri baseDir : string) :
  GoStrings.HasPrefix uri "package://" = false ->
  resolvePackageURI W uri baseDir
  = (if GoStrings.HasPrefix uri "/" then uri else filepath.Join baseDir uri)
  /\ resolvePackageURI W uri baseDir = resolvePackageURI W' uri baseDir.
Proof.
  intros Hplain. unfold resolvePackageURI. by rewrite Hplain.
Qed.

(** A file URI is no package URI and does not start with a slash: it is
    taken for a relative path. *)
Lemma resolvePackageURI_plain_witness :
  resolvePackageURI Scenario.xWorld "file:///abs/arm.stl" "/x"
  = "/x/file:/abs/arm.stl"
  /\ resolvePackageURI Scenario.xWorld "/abs/arm.stl" "/x" = "/abs/arm.stl".
Proof.
  split.
  - exact (proj1 (resolvePackageURI_plain Scenario.xWorld Scenario.goodWorld
                    "file:///abs/arm.stl" "/x" eq_refl)).
  - exact (proj1 (resolvePackageURI_plain Scenario.xWorld Scenario.goodWorld
                    "/abs/arm.stl" "/x" eq_refl)).
Defined.

(** X14.  With a base directory that is not the empty string, no
    reference resolves to the empty string. *)
Theorem resolvePackageURI_nonempty {float64 : Type} (W : @World float64)
    (uri baseDir : string) :
  baseDir <> "" -> resolvePackageURI W uri baseDir <> "".
Proof. apply resolve_nonempty. Qed.

(** The empty reference and the bare scheme below /x, and the empty
    reference below the empty base directory, where the premise fails. *)
Lemma resolvePackageURI_nonempty_witness :
  resolvePackageURI Scenario.xWorld "" "/x" <> ""
  /\ resolvePackageURI Scenario.xWorld "package://" "/x" <> ""
  /\ resolvePackageURI Scenario.xWorld "" "" = "".
Proof.
  split; [|split].
  - apply (resolvePackageURI_nonempty Scenario.xWorld "" "/x"). discriminate.
  - apply (resolvePackageURI_nonempty Scenario.xWorld "package://" "/x").
    discriminate.
  - reflexivity.
Defined.

(** X15.  What a package URI resolves to is the candidate
    join(baseDir, rest) or, when nothing exists there, the path of a visit
    of the walk below baseDir that is a file and ends with rest. *)
Theorem resolvePackageURI_found {float64 : Type} (W : @World float64)
    (pkg rest baseDir : string) :
  GoStrings.ContainsByte pkg "/" = false ->
  let result :=
    resolvePackageURI W ("package://" +:+ pkg +:+ "/" +:+ rest) baseDir in
  result = filepath.Join baseDir rest
  \/ (os_Stat W (filepath.Join baseDir rest) = false
      /\ exists v, v ∈ visitsFrom W baseDir
           /\ vPath v = result
           /\ vErr v = false
           /\ vInfo v = Some {| IsDir := false |}
           /\ exists p, result = p +:+ rest).
Proof.
  intros Hpkg result. subst result.
  rewrite (resolve_strips_package W pkg rest baseDir Hpkg).
  unfold resolve_spec.
  destruct (os_Stat W _); [by left|].
  destruct (List.find _ _) as [v|] eqn:Hfind; [|by left].
  right. split; [done|]. exists v.
  apply List.find_some in Hfind as [Hin Hv].
  unfold isFileWithSuffix in Hv.
  destruct (vErr v); [done|].
  destruct (vInfo v) as [[[|]]|]; try done.
  simpl in Hv. apply HasSuffix_spec in Hv.
  by rewrite list_elem_of_In.
Qed.

Lemma resolvePackageURI_found_witness :
  let result := resolvePackageURI Scenario.xWorld
                  "package://foo_description/meshes/arm.stl" "/x" in
  result = "/x/meshes/arm.stl"
  \/ (os_Stat Scenario.xWorld "/x/meshes/arm.stl" = false
      /\ exists v, v ∈ visitsFrom Scenario.xWorld "/x"
           /\ vPath v = result
           /\ vErr v = false
           /\ vInfo v = Some {| IsDir := false |}
           /\ exists p, result = p +:+ "meshes/arm.stl").
Proof.
  exact (resolvePackageURI_found Scenario.xWorld "foo_description"
           "meshes/arm.stl" "/x" eq_refl).
Defined.

(** ** main *)

Lemma processCollision_stlPathGiven {float64 : Type} (W : @World float64)
    (baseDir : string) (c : Collision) :
  baseDir <> "" -> Forall stlPathGiven (processCollision W baseDir c).2.
Proof.
  intros Hbase. unfold processCollision.
  destruct (Collision_Geometry c) as [g|]; [|by constructor].
  destruct (Geometry_Mesh g) as [mesh|]; [|by constructor].
  pose proof (resolve_nonempty W (Filename mesh) baseDir Hbase) as Hpath.
  destruct (CalculateBoundingBoxFromFile W _) as [bbox|err].
  - destruct (Dimensions bbox) as [[width height] depth].
    repeat constructor. exact Hpath.
  - repeat constructor. exact Hpath.
Qed.

Lemma Forall_concat_fmap {A B : Type} (P : B -> Prop) (f : A -> list B)
    (xs : list A) :
  (forall x, Forall P (f x)) -> Forall P (concat (f <$> xs)).
Proof.
  intros Hf. induction xs as [|x xs IH]; [constructor|].
  rewrite fmap_cons.
  change (concat (f x :: (f <$> xs))) with (f x ++ concat (f <$> xs)).
  apply Forall_app. split; [apply Hf|exact IH].
Qed.

Lemma simplify_stlPathGiven {float64 : Type} (W : @World float64)
    (baseDir : string) (robot : @Robot float64) :
  baseDir <> "" -> Forall stlPathGiven (simplify W baseDir robot).2.
Proof.
  intros Hbase. rewrite simplify_stdout. apply Forall_app. split.
  - apply Forall_concat_fmap. intros l. rewrite processLink_stdout.
    apply Forall_concat_fmap. intros c.
    by apply processCollision_stlPathGiven.
  - by repeat constructor.
Qed.

(** X2.  Whatever the arguments and the world, no stlPath line of a run
    reports the empty path: the bounding-box package is never asked for
    the file of the empty name. *)
Theorem main_resolves_to_a_path {float64 : Type} (W : @World float64)
    (Args : list string) :
  Forall stlPathGiven (stdout (main W Args)).
Proof.
  unfold main. case_decide; [by repeat constructor|].
  destruct (os_ReadFile W _) as [data|err]; [|by repeat constructor].
  destruct (xml_Unmarshal W data) as [robot|err]; [|by repeat constructor].
  pose proof (simplify_stlPathGiven W
                (filepath.Dir (default "" (Args !! 1))) robot
                (Clean_nonempty _)) as Hout.
  destruct (simplify W _ robot) as [robot' out]. simpl in Hout.
  destruct (xml_MarshalIndent W robot') as [output|err]; simpl.
  - destruct (os_WriteFile W _ _); simpl;
      (apply Forall_app; split; [exact Hout|by repeat constructor]).
  - apply Forall_app; split; [exact Hout|by repeat constructor].
Qed.

